(** * The outbound HTTP client of [src/lib/utils/api.server.ts]

    A shallow embedding of the [Api] class: the query encoder
    ([buildQueryString]), the body serializer ([serializeBody] with its two
    recursive flatteners [appendParam] and [appendFD]), the header builder
    ([buildBaseHeaders], [buildHeaders]), and the single dispatch [request]
    with its timer, its composite abort controller and its response
    normaliser, followed by the six verb methods. Beside it, the login
    feature: the form client [apiFormPost], the cookie helpers of
    [cookies.server.ts], the login actions and the error state of the
    login form.

    Conventions of the embedding.
    - A JavaScript string is a Rocq [string]; each [ascii] stands for one
      code unit, which is exact on ASCII text.
    - JavaScript numbers are kept abstract behind the class [JsNumber];
      the concrete examples run on integers.
    - [undefined] as the result of a property read is [None].
    - A thrown value is an [Error] object, as the [catch] clause of
      [request] takes it to be ([e as Error]): a name and a message.
    - Effects (timers, event listeners, the transport, body reads,
      [console.error]) go through the state and error monad [M]. *)

From Stdlib Require Import String Ascii ZArith Bool DecimalString Decimal.
From stdpp Require Import base option list gmap strings.

Local Open Scope string_scope.
Local Open Scope Z_scope.
Local Open Scope list_scope.

Set Warnings "-register-all".

(** ** Strings *)

Module Str.

(** [a + b] on strings. *)
Abbreviation cat := String.append.

(** [Array.prototype.join] on strings already converted. *)
Fixpoint join (sep : string) (l : list string) : string :=
  match l with
  | [] => ""
  | [x] => x
  | x :: r => cat x (cat sep (join sep r))
  end.

(** [s.slice(0, n)] for a non-negative [n]. *)
Definition slice0 (n : nat) (s : string) : string := String.substring 0 n s.

Definition lower_ascii (c : ascii) : ascii :=
  let n := nat_of_ascii c in
  if (Nat.leb 65 n && Nat.leb n 90)%bool then ascii_of_nat (n + 32) else c.

(** [s.toLowerCase()]. *)
Fixpoint toLowerCase (s : string) : string :=
  match s with
  | EmptyString => EmptyString
  | String c r => String (lower_ascii c) (toLowerCase r)
  end.

Fixpoint starts_with (p s : string) : bool :=
  match p, s with
  | EmptyString, _ => true
  | String a p', String b s' => if Ascii.eqb a b then starts_with p' s' else false
  | String _ _, EmptyString => false
  end.

(** [s.includes(p)]. *)
Fixpoint includes (p s : string) : bool :=
  if starts_with p s then true
  else match s with
       | EmptyString => false
       | String _ r => includes p r
       end.

(** ToBoolean on a string. *)
Definition truthy (s : string) : bool :=
  match s with EmptyString => false | _ => true end.

(** The decimal spelling of an array index. *)
Definition of_nat (n : nat) : string := NilZero.string_of_uint (Nat.to_uint n).

Definition of_Z (z : Z) : string := NilZero.string_of_int (Z.to_int z).

End Str.

Infix "^^" := Str.cat (at level 60, right associativity).

(** ** Numbers *)

(** What the client needs of a JavaScript number. *)
Class JsNumber (number : Type) := {
  number_to_string : number -> string;   (* Number::toString, radix 10 *)
  number_truthy : number -> bool;        (* ToBoolean: false on 0 and NaN *)
  number_finite : number -> bool;        (* neither NaN nor an infinity *)
  number_of_nat : nat -> number          (* the length of an array *)
}.

(** Integer-valued numbers, used by the concrete examples. *)
#[export] Instance JsNumber_Z : JsNumber Z := {
  number_to_string := Str.of_Z;
  number_truthy z := negb (Z.eqb z 0);
  number_finite _ := true;
  number_of_nat := Z.of_nat
}.

(** ** Thrown values and completions *)

Record JsError := mkError { err_name : string; err_message : string }.

(** The outcome of evaluating a piece of code: a value, or a throw. *)
Inductive Completion (A : Type) : Type :=
| Normal (a : A)
| Throw (e : JsError).
Arguments Normal {A} a.
Arguments Throw {A} e.

Definition cbind {A B} (c : Completion A) (k : A -> Completion B) : Completion B :=
  match c with
  | Normal a => k a
  | Throw e => Throw e
  end.


(** ** Values *)

(** What [typeof] answers. *)
Inductive JsType := TyUndefined | TyObject | TyBoolean | TyNumber | TyString.

(** A date as the serializers see it: [toISOString] either renders it or,
    on an invalid date, throws a [RangeError]. *)
Inductive JsDate :=
| ValidDate (iso : string)
| InvalidDate.

Definition toISOString (d : JsDate) : Completion string :=
  match d with
  | ValidDate iso => Normal iso
  | InvalidDate => Throw (mkError "RangeError" "Invalid time value")
  end.

Record Blob := mkBlob { blob_type : string; blob_bytes : string }.
Record File := mkFile { file_name : string; file_blob : Blob }.

Section Values.
Context {number : Type} `{JsNumber number}.

(** A parsed payload: what [res.json()] can produce. A text body read by
    [res.text()] is a [JStr]. *)
Inductive Json : Type :=
| JNull
| JBool (b : bool)
| JNum (n : number)
| JStr (s : string)
| JArr (items : list Json)
| JObj (props : list (string * Json)).

(** A request body as a caller can build it: payload values, plus
    [undefined], dates and binary values. *)
Inductive JsVal : Type :=
| VUndefined
| VNull
| VBool (b : bool)
| VNum (n : number)
| VStr (s : string)
| VArr (items : list JsVal)
| VObj (props : list (string * JsVal))
| VDate (d : JsDate)
| VBlob (b : Blob)
| VFile (f : File).

End Values.
Arguments Json number : clear implicits.
Arguments JsVal number : clear implicits.

Module Json.
Section Ops.
Context {number : Type} `{JsNumber number}.
Local Abbreviation Json := (Json number).

Definition typeof (v : Json) : JsType :=
  match v with
  | JNull => TyObject
  | JBool _ => TyBoolean
  | JNum _ => TyNumber
  | JStr _ => TyString
  | JArr _ | JObj _ => TyObject
  end.

(** ToBoolean. *)
Definition truthy (v : Json) : bool :=
  match v with
  | JNull => false
  | JBool b => b
  | JNum n => number_truthy n
  | JStr s => Str.truthy s
  | JArr _ | JObj _ => true
  end.

Fixpoint assoc (k : string) (props : list (string * Json)) : option Json :=
  match props with
  | [] => None
  | (k', v) :: r => if String.eqb k k' then Some v else assoc k r
  end.

Fixpoint at_index (k : string) (i : nat) (items : list Json) : option Json :=
  match items with
  | [] => None
  | x :: r => if String.eqb k (Str.of_nat i) then Some x else at_index k (S i) r
  end.

(** [v[k]] on a value that is neither [null] nor [undefined]; [None] is
    [undefined]. Numbers, booleans and strings inherit no property under
    the names this client reads. *)
Definition get (k : string) (v : Json) : option Json :=
  match v with
  | JObj props => assoc k props
  | JArr items =>
      if String.eqb k "length" then Some (JNum (number_of_nat (length items)))
      else at_index k 0 items
  | _ => None
  end.

(** [v?.k]. *)
Definition get_opt (k : string) (v : Json) : option Json :=
  match v with
  | JNull => None
  | _ => get k v
  end.

(** [String(v)]. Inside an array's own conversion [null] is the empty
    string. *)
Fixpoint to_string (v : Json) : string :=
  match v with
  | JNull => "null"
  | JBool b => if b then "true" else "false"
  | JNum n => number_to_string n
  | JStr s => s
  | JArr items =>
      Str.join "," (List.map (fun x => match x with
                                       | JNull => ""
                                       | _ => to_string x
                                       end) items)
  | JObj _ => "[object Object]"
  end.

(** The one-character string holding a double quote. *)
Definition dquote : string := String (ascii_of_nat 34) EmptyString.

Definition hex_digit (n : nat) : ascii :=
  ascii_of_nat (if Nat.ltb n 10 then 48 + n else 87 + n).

Definition escape_unit (c : ascii) : string :=
  let n := nat_of_ascii c in
  if Nat.eqb n 8 then "\b"
  else if Nat.eqb n 9 then "\t"
  else if Nat.eqb n 10 then "\n"
  else if Nat.eqb n 12 then "\f"
  else if Nat.eqb n 13 then "\r"
  else if Nat.eqb n 34 then "\" ^^ dquote
  else if Nat.eqb n 92 then "\\"
  else if Nat.ltb n 32 then
    "\u00" ^^ String (hex_digit (n / 16)) (String (hex_digit (n mod 16)) "")
  else String c "".

Fixpoint escape (s : string) : string :=
  match s with
  | EmptyString => ""
  | String c r => escape_unit c ^^ escape r
  end.

(** QuoteJSONString. *)
Definition quote (s : string) : string := dquote ^^ escape s ^^ dquote.

(** [JSON.stringify(v)]. *)
Fixpoint stringify (v : Json) : string :=
  match v with
  | JNull => "null"
  | JBool b => if b then "true" else "false"
  | JNum n => if number_finite n then number_to_string n else "null"
  | JStr s => quote s
  | JArr items => "[" ^^ Str.join "," (List.map stringify items) ^^ "]"
  | JObj props =>
      "{" ^^ Str.join "," (List.map (fun kv => match kv with
                                               | (k, x) => quote k ^^ ":" ^^ stringify x
                                               end) props) ^^ "}"
  end.

End Ops.
End Json.

(** ** URLSearchParams *)

Module USP.

(** The list of name-value pairs a [URLSearchParams] object holds. *)
Definition t := list (string * string).

Definition append (name value : string) (l : t) : t := l ++ [(name, value)].

Fixpoint remove_all (name : string) (l : t) : t :=
  match l with
  | [] => []
  | (k, v) :: r => if String.eqb k name then remove_all name r
                   else (k, v) :: remove_all name r
  end.

(** [set]: the first pair named [name] takes the value and the others go;
    with no such pair, the pair is appended. *)
Fixpoint set (name value : string) (l : t) : t :=
  match l with
  | [] => [(name, value)]
  | (k, v) :: r => if String.eqb k name then (k, value) :: remove_all name r
                   else (k, v) :: set name value r
  end.

Definition upper_hex_digit (n : nat) : ascii :=
  ascii_of_nat (if Nat.ltb n 10 then 48 + n else 55 + n).

Definition is_alnum (n : nat) : bool :=
  (Nat.leb 48 n && Nat.leb n 57) || (Nat.leb 65 n && Nat.leb n 90)
  || (Nat.leb 97 n && Nat.leb n 122).

(** Units the form-urlencoded serializer leaves as they are: the ASCII
    alphanumerics and [*], [-], [.], [_]. *)
Definition is_plain (n : nat) : bool :=
  is_alnum n || Nat.eqb n 42 || Nat.eqb n 45 || Nat.eqb n 46 || Nat.eqb n 95.

Definition encode_unit (c : ascii) : string :=
  let n := nat_of_ascii c in
  if Nat.eqb n 32 then "+"
  else if is_plain n then String c ""
  else String "%" (String (upper_hex_digit (n / 16))
                     (String (upper_hex_digit (n mod 16)) "")).

Fixpoint encode (s : string) : string :=
  match s with
  | EmptyString => ""
  | String c r => encode_unit c ^^ encode r
  end.

(** [toString]: the form-urlencoded serializer. *)
Definition toString (l : t) : string :=
  Str.join "&" (List.map (fun kv => encode (fst kv) ^^ "=" ^^ encode (snd kv)) l).

(** The form-urlencoded parser, by which a receiver reads the pairs back
    from the wire. *)
Fixpoint split (sep : ascii) (s : string) : list string :=
  match s with
  | EmptyString => [EmptyString]
  | String c r =>
      if Ascii.eqb c sep then EmptyString :: split sep r
      else match split sep r with
           | [] => [String c EmptyString]
           | h :: t => String c h :: t
           end
  end.

(** The text before the first [sep], and the text after it if there is
    one. *)
Fixpoint cut (sep : ascii) (s : string) : string * option string :=
  match s with
  | EmptyString => (EmptyString, None)
  | String c r =>
      if Ascii.eqb c sep then (EmptyString, Some r)
      else match cut sep r with
           | (before, after) => (String c before, after)
           end
  end.

Fixpoint plus_to_space (s : string) : string :=
  match s with
  | EmptyString => EmptyString
  | String c r => String (if Ascii.eqb c "+" then " "%char else c) (plus_to_space r)
  end.

Definition hex_value (c : ascii) : option nat :=
  let n := nat_of_ascii c in
  if Nat.leb 48 n && Nat.leb n 57 then Some (n - 48)%nat
  else if Nat.leb 65 n && Nat.leb n 70 then Some (n - 55)%nat
  else if Nat.leb 97 n && Nat.leb n 102 then Some (n - 87)%nat
  else None.

Fixpoint percent_decode (s : string) : string :=
  match s with
  | EmptyString => EmptyString
  | String c r =>
      if Ascii.eqb c "%" then
        match r with
        | String a (String b r') =>
            match hex_value a, hex_value b with
            | Some x, Some y => String (ascii_of_nat (16 * x + y)) (percent_decode r')
            | _, _ => String c (percent_decode r)
            end
        | _ => String c (percent_decode r)
        end
      else String c (percent_decode r)
  end.

Definition decode (s : string) : string := percent_decode (plus_to_space s).

Definition parse_pair (piece : string) : string * string :=
  match cut "=" piece with
  | (name, Some value) => (decode name, decode value)
  | (name, None) => (decode name, EmptyString)
  end.

Definition parse (s : string) : t :=
  List.map parse_pair
    (List.filter (fun piece => Str.truthy piece) (split "&" s)).

End USP.

(** ** Query Encoder *)

Section QueryEncoder.
Context {number : Type} `{JsNumber number}.

Inductive QueryPrimitive : Type :=
| QStr (s : string)
| QNum (n : number)
| QBool (b : bool)
| QNull
| QUndefined.

(** A parameter's value: one primitive, or an array of them. *)
Inductive QueryValue : Type :=
| QOne (p : QueryPrimitive)
| QMany (ps : list QueryPrimitive).

(** The entries of the mapping, in the order [Object.entries] lists them. *)
Definition QueryParams : Type := list (string * QueryValue).

(** [v == null]. *)
Definition q_nullish (p : QueryPrimitive) : bool :=
  match p with QNull | QUndefined => true | _ => false end.

(** [String(v)]. *)
Definition q_string (p : QueryPrimitive) : string :=
  match p with
  | QStr s => s
  | QNum n => number_to_string n
  | QBool b => if b then "true" else "false"
  | QNull => "null"
  | QUndefined => "undefined"
  end.

(** The two objects alive during an encoding: the caller's mapping and the
    local [usp]. *)
Record QHeap : Type := mkQHeap { heap_params : QueryParams; heap_usp : USP.t }.

Definition usp_append (key value : string) (h : QHeap) : QHeap :=
  mkQHeap (heap_params h) (USP.append key value (heap_usp h)).

Definition usp_set (key value : string) (h : QHeap) : QHeap :=
  mkQHeap (heap_params h) (USP.set key value (heap_usp h)).

(** The callback of [value.forEach]. *)
Definition each_element (key : string) (h : QHeap) (v : QueryPrimitive) : QHeap :=
  if q_nullish v then h else usp_append key (q_string v) h.

(** The callback of [Object.entries(params).forEach]. *)
Definition each_entry (h : QHeap) (kv : string * QueryValue) : QHeap :=
  match kv with
  | (key, QOne p) => if q_nullish p then h else usp_set key (q_string p) h
  | (key, QMany vs) => fold_left (each_element key) vs h
  end.

Definition buildQueryString_run (params : QueryParams) : string * QHeap :=
  let h0 := mkQHeap params [] in
  let h1 := fold_left each_entry (heap_params h0) h0 in
  let qs := USP.toString (heap_usp h1) in
  (if Str.truthy qs then "?" ^^ qs else "", h1).

Definition buildQueryString (params : option QueryParams) : string :=
  match params with
  | None => ""
  | Some p => fst (buildQueryString_run p)
  end.

End QueryEncoder.
Arguments QueryPrimitive number : clear implicits.
Arguments QueryValue number : clear implicits.
Arguments QueryParams number : clear implicits.
Arguments QHeap number : clear implicits.

(** ** Body Serializer *)

Inductive ApiMode := ModeJson | ModeForm | ModeUrlencoded.

(** One entry of a [FormData]: a string field, or a binary part with the
    file name given to [append], if any. *)
Inductive FormEntry :=
| FormField (name value : string)
| FormPart (name : string) (content : Blob) (filename : option string).

Definition FormData := list FormEntry.

(** What [serializeBody] hands to the transport. *)
Inductive BodyInit :=
| TextBody (s : string)
| FormBody (fd : FormData).

Section BodySerializer.
Context {number : Type} `{JsNumber number}.
Local Abbreviation Json := (Json number).
Local Abbreviation JsVal := (JsVal number).

(** The [body] argument of a verb method: a value, or an instance of
    [URLSearchParams] or [FormData] built by the caller. *)
Inductive RequestBody : Type :=
| BodyVal (v : JsVal)
| BodyParams (p : USP.t)
| BodyForm (fd : FormData).

(** [body == null]. *)
Definition body_nullish (b : RequestBody) : bool :=
  match b with
  | BodyVal VUndefined | BodyVal VNull => true
  | _ => false
  end.

Fixpoint indexed {A} (i : nat) (l : list A) : list (string * A) :=
  match l with
  | [] => []
  | x :: r => (Str.of_nat i, x) :: indexed (S i) r
  end.

Fixpoint units (s : string) : list JsVal :=
  match s with
  | EmptyString => []
  | String c r => VStr (String c "") :: units r
  end.

(** [Object.entries(v)]: the own enumerable string-keyed properties. Dates
    and binary values have none. *)
Definition object_entries (v : JsVal) : list (string * JsVal) :=
  match v with
  | VObj props => props
  | VArr items => indexed 0 items
  | VStr s => indexed 0 (units s)
  | _ => []
  end.

(** [String(value)] where the flatteners reach it: on a boolean, a number
    or a string. *)
Definition leaf_string (v : JsVal) : string :=
  match v with
  | VBool b => if b then "true" else "false"
  | VNum n => number_to_string n
  | VStr s => s
  | _ => ""
  end.

(** What [JSON.stringify] makes of a body value before printing it:
    [undefined] ([None]) is dropped from an object and is [null] in an
    array, a date goes through [toJSON], a binary value has no own
    property. *)
Fixpoint to_json (v : JsVal) : option Json :=
  match v with
  | VUndefined => None
  | VNull => Some JNull
  | VBool b => Some (JBool b)
  | VNum n => Some (JNum n)
  | VStr s => Some (JStr s)
  | VArr items =>
      Some (JArr (List.map (fun x => match to_json x with
                                     | Some j => j
                                     | None => JNull
                                     end) items))
  | VObj props =>
      Some (JObj (List.flat_map (fun kv => match kv with
                                      | (k, x) => match to_json x with
                                                  | Some j => [(k, j)]
                                                  | None => []
                                                  end
                                      end) props))
  | VDate (ValidDate iso) => Some (JStr iso)
  | VDate InvalidDate => Some JNull
  | VBlob _ | VFile _ => Some (JObj [])
  end.

(** [appendParam] of the url-encoded mode; [params] is the local
    [URLSearchParams] being filled. *)
Fixpoint appendParam (key : string) (value : JsVal) (params : USP.t)
  : Completion USP.t :=
  match value with
  | VUndefined | VNull => Normal (USP.append key "" params)
  | VDate d => cbind (toISOString d) (fun iso => Normal (USP.append key iso params))
  | VArr items =>
      (fix each (l : list JsVal) (params : USP.t) : Completion USP.t :=
         match l with
         | [] => Normal params
         | v :: r => cbind (appendParam (key ^^ "[]") v params) (each r)
         end) items params
  | VObj props =>
      (fix each (l : list (string * JsVal)) (params : USP.t) : Completion USP.t :=
         match l with
         | [] => Normal params
         | (subKey, subVal) :: r =>
             cbind (appendParam (key ^^ "[" ^^ subKey ^^ "]") subVal params) (each r)
         end) props params
  | VBlob _ | VFile _ => Normal params
  | VBool _ | VNum _ | VStr _ => Normal (USP.append key (leaf_string value) params)
  end.

(** [appendFD] of the multipart mode; [fd] is the local [FormData]. *)
Fixpoint appendFD (key : string) (value : JsVal) (fd : FormData)
  : Completion FormData :=
  match value with
  | VUndefined | VNull => Normal (fd ++ [FormField key ""])
  | VFile f =>
      Normal (fd ++ [FormPart key (file_blob f)
                       (Some (if Str.truthy (file_name f) then file_name f else "file"))])
  | VBlob b => Normal (fd ++ [FormPart key b None])
  | VDate d => cbind (toISOString d) (fun iso => Normal (fd ++ [FormField key iso]))
  | VArr items =>
      (fix each (l : list JsVal) (fd : FormData) : Completion FormData :=
         match l with
         | [] => Normal fd
         | v :: r => cbind (appendFD (key ^^ "[]") v fd) (each r)
         end) items fd
  | VObj props =>
      (fix each (l : list (string * JsVal)) (fd : FormData) : Completion FormData :=
         match l with
         | [] => Normal fd
         | (subKey, subVal) :: r =>
             cbind (appendFD (key ^^ "[" ^^ subKey ^^ "]") subVal fd) (each r)
         end) props fd
  | VBool _ | VNum _ | VStr _ => Normal (fd ++ [FormField key (leaf_string value)])
  end.

(** [Object.entries(body).forEach(([k, v]) => append(k, v))]. *)
Fixpoint for_entries {S} (append : string -> JsVal -> S -> Completion S)
  (entries : list (string * JsVal)) (s : S) : Completion S :=
  match entries with
  | [] => Normal s
  | (k, v) :: r => cbind (append k v s) (for_entries append r)
  end.

(** The own enumerable properties of the [body] argument; an instance of
    [URLSearchParams] or [FormData] has none. *)
Definition body_entries (b : RequestBody) : list (string * JsVal) :=
  match b with
  | BodyVal v => object_entries v
  | BodyParams _ | BodyForm _ => []
  end.

(** [JSON.stringify(body)]; [None] is [undefined]. *)
Definition stringify_body (b : RequestBody) : option string :=
  match b with
  | BodyVal v => option_map Json.stringify (to_json v)
  | BodyParams _ | BodyForm _ => Some "{}"
  end.

(** The fields the url-encoded mode puts on the wire for a body that is
    not passed through. *)
Definition urlencoded_fields (b : RequestBody) : Completion USP.t :=
  for_entries appendParam (body_entries b) [].

(** The entries the multipart mode builds for a body that is not passed
    through. *)
Definition multipart_fields (b : RequestBody) : Completion FormData :=
  for_entries appendFD (body_entries b) [].

Definition serializeBody (mode : ApiMode) (body : RequestBody)
  : Completion (option BodyInit) :=
  if body_nullish body then Normal None
  else match mode with
       | ModeJson => Normal (option_map TextBody (stringify_body body))
       | ModeUrlencoded =>
           match body with
           | BodyParams p => Normal (Some (TextBody (USP.toString p)))
           | _ => cbind (urlencoded_fields body)
                    (fun params => Normal (Some (TextBody (USP.toString params))))
           end
       | ModeForm =>
           match body with
           | BodyForm fd => Normal (Some (FormBody fd))
           | _ => cbind (multipart_fields body)
                    (fun fd => Normal (Some (FormBody fd)))
           end
       end.

End BodySerializer.
Arguments RequestBody number : clear implicits.

(** ** Header Builder *)

Abbreviation Headers := (gmap string string).

Definition buildBaseHeaders (mode : ApiMode) : Headers :=
  let headers : Headers := {[ "Accept" := "application/json" ]} in
  match mode with
  | ModeJson => <[ "Content-Type" := "application/json" ]> headers
  | ModeUrlencoded => <[ "Content-Type" := "application/x-www-form-urlencoded" ]> headers
  | ModeForm => headers
  end.

Definition buildHeaders (mode : ApiMode) (token : option string) : Headers :=
  let headers := buildBaseHeaders mode in
  match token with
  | Some t => if Str.truthy t then <[ "Authorization" := "Bearer " ^^ t ]> headers
              else headers
  | None => headers
  end.

(** [{ ...dst, ...src }]: the properties of [src] are written over those
    of [dst]. *)
Definition spread_over (dst : Headers) (src : option Headers) : Headers :=
  match src with
  | Some h => h ∪ dst
  | None => dst
  end.

(** The [headers] literal of [request]. *)
Definition final_headers (baseHeaders : Headers) (caller : option Headers) : Headers :=
  <[ "Cache-Control" := "no-store, max-age=0" ]> (spread_over baseHeaders caller).

(** ** The world of a call *)

Inductive HttpMethod := GET | POST | PUT | DELETE | PATCH.

(** What [fetch] is called with, the signal apart. *)
Record FetchCall := mkFetchCall {
  call_url : string;
  call_method : HttpMethod;
  call_body : option BodyInit;
  call_cache : string;
  call_headers : Headers
}.

Inductive Event :=
| EvSetTimeout (id : positive) (ms : Z)
| EvClearTimeout (id : positive)
| EvListen
| EvFetch (call : FetchCall)
| EvReadJson
| EvReadText
| EvConsoleError.

(** The timers that are scheduled and not yet released, and what the call
    has done so far. *)
Record World := mkWorld { w_timers : gset positive; w_trace : list Event }.

Definition M (A : Type) : Type := World -> Completion A * World.

Definition ret {A} (a : A) : M A := fun w => (Normal a, w).

Definition bind {A B} (m : M A) (k : A -> M B) : M B :=
  fun w => match m w with
           | (Normal a, w') => k a w'
           | (Throw e, w') => (Throw e, w')
           end.

Notation "'let!' x ':=' m 'in' k" := (bind m (fun x => k))
  (at level 10, x pattern, m at level 100, k at level 200).

(** An effect-free computation that may throw. *)
Definition lift {A} (c : Completion A) : M A := fun w => (c, w).

Definition emit (e : Event) : M unit :=
  fun w => (Normal tt, mkWorld (w_timers w) (w_trace w ++ [e])).

(** [try { body } catch (e) { handler }]. *)
Definition try_catch {A} (body : M A) (handler : JsError -> M A) : M A :=
  fun w => match body w with
           | (Normal a, w') => (Normal a, w')
           | (Throw e, w') => handler e w'
           end.

(** [try { body } finally { final }]. *)
Definition try_finally {A} (body : M A) (final : M unit) : M A :=
  fun w => match body w with
           | (r, w') => match final w' with
                        | (Normal _, w'') => (r, w'')
                        | (Throw e, w'') => (Throw e, w'')
                        end
           end.

(** [setTimeout]: the handle is a positive integer that names no timer
    still scheduled. *)
Definition setTimeout (ms : Z) : M positive :=
  fun w => let id := fresh (w_timers w) in
           (Normal id, mkWorld ({[ id ]} ∪ w_timers w) (w_trace w ++ [EvSetTimeout id ms])).

Definition clearTimeout (id : positive) : M unit :=
  fun w => (Normal tt, mkWorld (w_timers w ∖ {[ id ]}) (w_trace w ++ [EvClearTimeout id])).

(** ToBoolean on a timer handle. *)
Definition handle_truthy (id : positive) : bool := negb (Z.eqb (Z.pos id) 0).

(** ** Cancellation Composer *)

(** A caller's signal: already aborted when the call starts, aborting at
    some later time, or never. Times count from the start of the call. *)
Inductive AbortSignal :=
| Aborted (reason : JsError)
| AbortsAt (t : Z) (reason : JsError)
| NeverAborts.

(** The composite controller of a call: its signal's abort reason once it
    is aborted, and the callbacks that will abort it, each with the time
    at which it runs and the reason it passes to [abort], if any. *)
Record Controller := mkController {
  ctl_reason : option JsError;
  ctl_pending : list (Z * option JsError)
}.

Definition new_AbortController : Controller := mkController None [].

(** The [AbortError] an [abort()] without a reason makes. *)
Definition abort_error (text : string) : JsError := mkError "AbortError" text.

(** [controller.abort(reason)]: the first abort fixes the reason. *)
Definition abort (text : string) (reason : option JsError) (c : Controller) : Controller :=
  match ctl_reason c with
  | Some _ => c
  | None => mkController (Some (match reason with
                                | Some r => r
                                | None => abort_error text
                                end)) (ctl_pending c)
  end.

(** A callback that will call [controller.abort(reason)] at time [t]. *)
Definition schedule_abort (t : Z) (reason : option JsError) (c : Controller) : Controller :=
  mkController (ctl_reason c) (ctl_pending c ++ [(t, reason)]).

(** The callbacks that run strictly before [limit], the earliest first
    (the one registered first, among equals). *)
Fixpoint earliest_before (limit : Z) (l : list (Z * option JsError))
  : option (Z * option JsError) :=
  match l with
  | [] => None
  | (t, r) :: rest =>
      match earliest_before limit rest with
      | Some (t', r') =>
          if Z.ltb t limit && Z.leb t t' then Some (t, r) else Some (t', r')
      | None => if Z.ltb t limit then Some (t, r) else None
      end
  end.

(** The state of the controller once every callback due before [limit]
    has run. *)
Definition controller_at (text : string) (limit : Z) (c : Controller) : Controller :=
  match earliest_before limit (ctl_pending c) with
  | Some (_, r) => abort text r c
  | None => c
  end.

(** ** Response Normalizer and Client *)

Section Client.
Context {number : Type} `{JsNumber number}.
Local Abbreviation Json := (Json number).
Local Abbreviation RequestBody := (RequestBody number).

(** A response as the transport delivers it. [res_json] and [res_text]
    are what awaiting [res.json()] and [res.text()] gives. *)
Record Response : Type := mkResponse {
  res_status : Z;
  res_statusText : string;
  res_ok : bool;
  res_content_type : option string;
  res_json : Completion Json;
  res_text : Completion string
}.

(** The transport and its timing: the text of the [AbortError] the
    platform makes, the time at which the transport settles when nothing
    aborts it, and what it settles with. *)
Record Env : Type := mkEnv {
  env_abort_text : string;
  env_settles_at : Z;
  env_transport : FetchCall -> Completion Response
}.

Record ApiError : Type := mkApiError {
  error_status : Z;
  error_message : Json;
  error_detail : option Json
}.

(** [ApiResponse]; an absent field is [None]. *)
Record ApiResponse : Type := mkApiResponse {
  success : bool;
  data : option Json;
  message : option Json;
  error : option ApiError
}.

Record Api : Type := mkApi {
  baseURL : string;
  mode : ApiMode;
  defaultTimeoutMs : Z
}.

(** The constructor; [options?.timeoutMs ?? 30000]. *)
Definition new_Api (baseURL : string) (mode : option ApiMode)
  (options : option (option Z)) : Api :=
  mkApi baseURL
    (match mode with Some m => m | None => ModeJson end)
    (match options with Some (Some t) => t | _ => 30000 end).

(** The [init] argument of [request]: the token and the fields of
    [fetchInit] the dispatch reads. *)
Record RequestInit : Type := mkInit {
  init_token : option string;
  init_timeoutMs : option Z;
  init_signal : option AbortSignal;
  init_headers : option Headers
}.

(** [fetch(url, { ..., signal: controller.signal })]: the transport's
    result, unless the signal is aborted when the call starts or aborts
    strictly before the transport settles; the promise then rejects with
    the signal's reason. *)
Definition fetch (env : Env) (c : Controller) (call : FetchCall) : M Response :=
  let! _ := emit (EvFetch call) in
  match ctl_reason (controller_at (env_abort_text env) (env_settles_at env) c) with
  | Some reason => lift (Throw reason)
  | None => lift (env_transport env call)
  end.

Definition read_json (res : Response) : M Json :=
  let! _ := emit EvReadJson in lift (res_json res).

Definition read_text (res : Response) : M string :=
  let! _ := emit EvReadText in lift (res_text res).

(** [x || fallback] on a property read. *)
Definition or_else (x : option Json) (fallback : Json) : Json :=
  match x with
  | Some v => if Json.truthy v then v else fallback
  | None => fallback
  end.

(** The callback of [detail.map]. *)
Definition item_message (item : Json) : Json :=
  match item with
  | JStr _ => item
  | _ => or_else (Json.get_opt "msg" item) (JStr (Json.stringify item))
  end.

(** What [join] makes of one element: [null] is the empty string. *)
Definition join_text (x : Json) : string :=
  match x with
  | JNull => ""
  | _ => Json.to_string x
  end.

(** [l.join(sep)]. *)
Definition join_values (sep : string) (l : list Json) : string :=
  Str.join sep (List.map join_text l).

(** The [if (!res.ok)] block of [request]: the message and the detail of
    a failing response. The [typeof] and [Array.isArray] tests of the
    source are the cases of the match; on a parsed payload a property is
    present ([in]) exactly when reading it gives a value. *)
Definition extract_error (statusText : string) (parsed : Json) : Json * option Json :=
  let message := JStr (if Str.truthy statusText then statusText else "Request failed") in
  match parsed with
  | JObj _ | JArr _ =>
      (* typeof parsed === 'object' && parsed !== null *)
      match Json.get "detail" parsed with
      | Some detail =>
          (* 'detail' in parsedObj *)
          match detail with
          | JArr items =>
              (* Array.isArray(detail) *)
              (JStr (join_values "; " (List.map item_message items)), Some detail)
          | JStr _ =>
              (* typeof detail === 'string' *)
              (detail, Some detail)
          | JNull | JObj _ =>
              (* typeof detail === 'object' *)
              (or_else (Json.get_opt "msg" detail) (JStr (Json.stringify detail)), Some detail)
          | JBool _ | JNum _ => (message, Some detail)
          end
      | None =>
          match Json.get "message" parsed with
          | Some m =>
              (* 'message' in parsedObj *)
              (JStr (Json.to_string m), None)
          | None => (message, None)
          end
      end
  | JStr s =>
      (* typeof parsed === 'string' *)
      (JStr (Str.slice0 300 s), None)
  | JNull | JBool _ | JNum _ => (message, None)
  end.

Definition failure (status : Z) (message : Json) (detail : option Json) : ApiResponse :=
  mkApiResponse false None (Some message) (Some (mkApiError status message detail)).

(** The [catch] clause of [request]. *)
Definition on_throw (e : JsError) : M ApiResponse :=
  let message :=
    if String.eqb (err_name e) "AbortError" then "Request aborted"
    else if Str.truthy (err_message e) then err_message e
    else "Network error" in
  ret (failure 0 (JStr message) None).

(** [fetchInit?.timeoutMs ?? this.defaultTimeoutMs]. *)
Definition effective_timeout (api : Api) (init : RequestInit) : Z :=
  match init_timeoutMs init with
  | Some t => t
  | None => defaultTimeoutMs api
  end.

(** [timeoutMs && timeoutMs > 0]. *)
Definition timer_wanted (timeoutMs : Z) : bool :=
  negb (Z.eqb timeoutMs 0) && Z.ltb 0 timeoutMs.

(** The [signals] array. *)
Definition signals_of (init : RequestInit) : list AbortSignal :=
  match init_signal init with
  | Some s => [s]
  | None => []
  end.

(** The loop over [signals]: a signal already aborted aborts the
    controller with its reason, another gets a listener that will. *)
Fixpoint compose_each (env : Env) (signals : list AbortSignal) (controller : Controller)
  : M Controller :=
  match signals with
  | [] => ret controller
  | sig :: r =>
      match sig with
      | Aborted reason =>
          compose_each env r (abort (env_abort_text env) (Some reason) controller)
      | AbortsAt t reason =>
          let! _ := emit EvListen in
          compose_each env r (schedule_abort t (Some reason) controller)
      | NeverAborts =>
          let! _ := emit EvListen in compose_each env r controller
      end
  end.

(** The lines of [request] before its [try]: the timer and the
    composition of the signals. *)
Definition arm (env : Env) (timeoutMs : Z) (signals : list AbortSignal)
  : M (option positive * Controller) :=
  let controller := new_AbortController in
  let! (timeoutId, controller) :=
    (if timer_wanted timeoutMs then
       let! id := setTimeout timeoutMs in
       ret (Some id, schedule_abort timeoutMs None controller)
     else ret (None, controller)) in
  let! controller := compose_each env signals controller in
  ret (timeoutId, controller).

(** The inner [try] of [request]: the body parsed by content type, [null]
    when reading it throws. *)
Definition parse_body (res : Response) : M Json :=
  let contentType :=
    Str.toLowerCase (match res_content_type res with
                     | Some s => s
                     | None => ""
                     end) in
  try_catch
    (if Str.includes "application/json" contentType then read_json res
     else let! s := read_text res in ret (JStr s))
    (fun _ => ret JNull).

(** The lines of the [try] block after [fetch] has given a response. *)
Definition normalize (res : Response) : M ApiResponse :=
  if Z.eqb (res_status res) 204 then
    ret (mkApiResponse true (Some (JObj [])) (Some (JStr "No Content")) None)
  else
    let! parsed := parse_body res in
    if negb (res_ok res) then
      let! _ := emit EvConsoleError in
      match extract_error (res_statusText res) parsed with
      | (message, detail) => ret (failure (res_status res) message detail)
      end
    else
      ret (mkApiResponse true (Some parsed)
             (Some (or_else (Json.get_opt "message" parsed) (JStr "OK"))) None).

(** What [request] passes to [fetch]. *)
Definition fetch_call (api : Api) (path : string) (method : HttpMethod)
  (payload : option BodyInit) (init : RequestInit) : FetchCall :=
  let baseHeaders := buildHeaders (mode api) (init_token init) in
  mkFetchCall (baseURL api ^^ path) method payload "no-store"
    (final_headers baseHeaders (init_headers init)).

(** The [try] block. *)
Definition attempt (env : Env) (api : Api) (path : string) (method : HttpMethod)
  (body : RequestBody) (init : RequestInit) (controller : Controller) : M ApiResponse :=
  let! payload := lift (serializeBody (mode api) body) in
  let! res := fetch env controller (fetch_call api path method payload init) in
  normalize res.

(** The [finally] block. *)
Definition release (timeoutId : option positive) : M unit :=
  match timeoutId with
  | Some id => if handle_truthy id then clearTimeout id else ret tt
  | None => ret tt
  end.

Definition request (env : Env) (api : Api) (path : string) (method : HttpMethod)
  (body : RequestBody) (init : RequestInit) : M ApiResponse :=
  let! (timeoutId, controller) :=
    arm env (effective_timeout api init) (signals_of init) in
  try_finally
    (try_catch (attempt env api path method body init controller) on_throw)
    (release timeoutId).

(** The composite controller as [arm] leaves it, without the effects. *)
Definition compose_signal (text : string) (c : Controller) (sig : AbortSignal)
  : Controller :=
  match sig with
  | Aborted reason => abort text (Some reason) c
  | AbortsAt t reason => schedule_abort t (Some reason) c
  | NeverAborts => c
  end.

Definition compose (text : string) (timeoutMs : Z) (signals : list AbortSignal)
  : Controller :=
  fold_left (compose_signal text) signals
    (if timer_wanted timeoutMs then schedule_abort timeoutMs None new_AbortController
     else new_AbortController).

(** The reason with which the call is cancelled, if its composite signal
    is aborted at the start or aborts strictly before the transport
    settles. *)
Definition cancellation (env : Env) (api : Api) (init : RequestInit) : option JsError :=
  ctl_reason
    (controller_at (env_abort_text env) (env_settles_at env)
       (compose (env_abort_text env) (effective_timeout api init) (signals_of init))).

(** *** The verb methods *)

Definition only_token (token : option string) : RequestInit :=
  mkInit token None None None.

Definition get (env : Env) (api : Api) (path : string)
  (params : option (QueryParams number)) (token : option string) : M ApiResponse :=
  let url := path ^^ buildQueryString params in
  request env api url GET (BodyVal VUndefined) (only_token token).

Definition post (env : Env) (api : Api) (path : string) (body : RequestBody)
  (token : option string) : M ApiResponse :=
  request env api path POST body (only_token token).

Definition put (env : Env) (api : Api) (path : string) (body : RequestBody)
  (token : option string) : M ApiResponse :=
  request env api path PUT body (only_token token).

Definition patch (env : Env) (api : Api) (path : string) (body : RequestBody)
  (token : option string) : M ApiResponse :=
  request env api path PATCH body (only_token token).

Definition delete (env : Env) (api : Api) (path : string)
  (token : option string) : M ApiResponse :=
  request env api path DELETE (BodyVal VUndefined) (only_token token).

Definition deleteWithBody (env : Env) (api : Api) (path : string) (body : RequestBody)
  (token : option string) : M ApiResponse :=
  request env api path DELETE body (only_token token).

(** A call of one of the six verb methods. *)
Inductive VerbCall : Type :=
| CallGet (path : string) (params : option (QueryParams number)) (token : option string)
| CallPost (path : string) (body : RequestBody) (token : option string)
| CallPut (path : string) (body : RequestBody) (token : option string)
| CallPatch (path : string) (body : RequestBody) (token : option string)
| CallDelete (path : string) (token : option string)
| CallDeleteWithBody (path : string) (body : RequestBody) (token : option string).

Definition invoke (env : Env) (api : Api) (c : VerbCall) : M ApiResponse :=
  match c with
  | CallGet path params token => get env api path params token
  | CallPost path body token => post env api path body token
  | CallPut path body token => put env api path body token
  | CallPatch path body token => patch env api path body token
  | CallDelete path token => delete env api path token
  | CallDeleteWithBody path body token => deleteWithBody env api path body token
  end.

(** The clients the module exports, [BASE_URL] being [API_URL || '']. *)
Definition BASE_URL (API_URL : string) : string :=
  if Str.truthy API_URL then API_URL else "".

Definition apiJson (API_URL : string) : Api :=
  new_Api (BASE_URL API_URL) (Some ModeJson) None.

Definition apiForm (API_URL : string) : Api :=
  new_Api (BASE_URL API_URL) (Some ModeForm) None.

Definition apiUrlEncoded (API_URL : string) : Api :=
  new_Api (BASE_URL API_URL) (Some ModeUrlencoded) None.

End Client.
Arguments Response number : clear implicits.
Arguments Env number : clear implicits.
Arguments ApiError number : clear implicits.
Arguments ApiResponse number : clear implicits.
Arguments VerbCall number : clear implicits.

(** * Specifications

    The notions the theorems are stated with. Those that follow the
    wording of the specification rather than the code say so. *)

Section Specifications.
Context {number : Type} `{JsNumber number}.
Local Abbreviation Json := (Json number).
Local Abbreviation JsVal := (JsVal number).
Local Abbreviation RequestBody := (RequestBody number).
Local Abbreviation Response := (Response number).
Local Abbreviation Env := (Env number).
Local Abbreviation ApiResponse := (ApiResponse number).

(** [steps m Q]: from any world, [m] leaves the timers as they are, adds
    the events [evs] to the trace and completes with [r], where
    [Q r evs]. *)
Definition steps {A} (m : M A) (Q : Completion A -> list Event -> Prop) : Prop :=
  forall w, exists r evs,
    m w = (r, mkWorld (w_timers w) (w_trace w ++ evs)) /\ Q r evs.

(** The call is answered by [res]: the body serializes, nothing cancels
    the call before the transport settles, and the transport settles with
    [res]. *)
Definition delivers (env : Env) (api : Api) (path : string) (method : HttpMethod)
  (body : RequestBody) (init : RequestInit) (res : Response) : Prop :=
  exists payload,
    serializeBody (mode api) body = Normal payload
    /\ cancellation env api init = None
    /\ env_transport env (fetch_call api path method payload init) = Normal res.

Definition is_timer_event (e : Event) : bool :=
  match e with
  | EvSetTimeout _ _ | EvClearTimeout _ => true
  | _ => false
  end.

Definition is_body_read (e : Event) : bool :=
  match e with
  | EvReadJson | EvReadText => true
  | _ => false
  end.

(** The events the timer brackets a call with. *)
Definition timer_set (t : Z) (id : positive) : list Event :=
  if timer_wanted t then [EvSetTimeout id t] else [].

Definition timer_cleared (t : Z) (id : positive) : list Event :=
  if timer_wanted t then [EvClearTimeout id] else [].

(** What the [try] block may do: no timer event, and no [fetch] but with
    the call [request] builds. *)
Definition try_event (api : Api) (path : string) (method : HttpMethod)
  (init : RequestInit) (e : Event) : Prop :=
  match e with
  | EvSetTimeout _ _ | EvClearTimeout _ | EvListen => False
  | EvFetch call => exists payload, call = fetch_call api path method payload init
  | EvReadJson | EvReadText | EvConsoleError => True
  end.

(** What the lines after [fetch] may do. *)
Definition reply_event (e : Event) : bool :=
  match e with
  | EvReadJson | EvReadText | EvConsoleError => true
  | _ => false
  end.

(** The envelope invariant: [error] is there exactly on a failure, [data]
    exactly on a success. *)
Definition discriminated (r : ApiResponse) : Prop :=
  (is_Some (error r) <-> success r = false)
  /\ (is_Some (data r) <-> success r = true).


(** The message of the [catch] clause for a thrown value that is no
    [AbortError]. *)
Definition failure_text (e : JsError) : string :=
  if Str.truthy (err_message e) then err_message e else "Network error".

(** ** The precedence of the error message, in the words of the
    specification *)

(** The response's status phrase, or ["Request failed"]. *)
Definition status_phrase (statusText : string) : Json :=
  JStr (if Str.truthy statusText then statusText else "Request failed").

(** The [msg] field of an object, when it is there and truthy. *)
Definition msg_of (v : Json) : option Json :=
  match v with
  | JObj props =>
      match Json.assoc "msg" props with
      | Some m => if Json.truthy m then Some m else None
      | None => None
      end
  | _ => None
  end.

(** The message of one element of a [detail] array. *)
Definition element_text (item : Json) : string :=
  match item with
  | JStr s => s
  | _ => match msg_of item with
         | Some m => Json.to_string m
         | None => Json.stringify item
         end
  end.

(** Rule 1: the message a [detail] field gives. *)
Definition from_detail (statusText : string) (detail : Json) : Json :=
  match detail with
  | JArr items => JStr (Str.join "; " (List.map element_text items))
  | JStr s => JStr s
  | JObj _ => match msg_of detail with
              | Some m => m
              | None => JStr (Json.stringify detail)
              end
  | JNull => JStr "null"
  | JBool _ | JNum _ => status_phrase statusText
  end.

(** A field of a payload that is an object. *)
Definition field (k : string) (payload : Json) : option Json :=
  match payload with
  | JObj props => Json.assoc k props
  | _ => None
  end.

Definition precedence_message (statusText : string) (payload : Json) : Json :=
  match field "detail" payload with
  | Some detail => from_detail statusText detail
  | None =>
      match field "message" payload with
      | Some m => JStr (Json.to_string m)
      | None =>
          match payload with
          | JStr text => JStr (Str.slice0 300 text)
          | _ => status_phrase statusText
          end
      end
  end.

(** ** Bracket-path flattening, in the words of the specification *)









(** The text holds no [sep]. *)
Fixpoint lacks (sep : ascii) (s : string) : bool :=
  match s with
  | EmptyString => true
  | String c r => negb (Ascii.eqb c sep) && lacks sep r
  end.

(** One pair as the serializer writes it. *)
Definition wire_pair (kv : string * string) : string :=
  USP.encode (fst kv) ^^ "=" ^^ USP.encode (snd kv).

(** ** The query string, in the words of the specification *)

Definition entry_pairs (kv : string * QueryValue number) : list (string * string) :=
  match kv with
  | (key, QOne p) => if q_nullish p then [] else [(key, q_string p)]
  | (key, QMany ps) =>
      List.map (fun p => (key, q_string p))
        (List.filter (fun p => negb (q_nullish p)) ps)
  end.

Definition query_pairs (params : QueryParams number) : list (string * string) :=
  List.flat_map entry_pairs params.

End Specifications.

(** ** Notions for the further properties of the client *)

Section ClientNotions.
Context {number : Type} `{JsNumber number}.
Local Abbreviation Json := (Json number).
Local Abbreviation JsVal := (JsVal number).
Local Abbreviation Response := (Response number).

Definition is_fetch (e : Event) : bool :=
  match e with
  | EvFetch _ => true
  | _ => false
  end.

(** The message the [catch] clause of [request] gives a thrown value. *)
Definition catch_text (e : JsError) : string :=
  if String.eqb (err_name e) "AbortError" then "Request aborted" else failure_text e.

(** What the inner [try] of [request] leaves in [parsed]. *)
Definition parsed_of (res : Response) : Json :=
  let contentType :=
    Str.toLowerCase (match res_content_type res with Some s => s | None => "" end) in
  if Str.includes "application/json" contentType then
    match res_json res with
    | Normal j => j
    | Throw _ => JNull
    end
  else
    match res_text res with
    | Normal s => JStr s
    | Throw _ => JNull
    end.

(** The one body read a response that is not a 204 gets. *)
Definition body_read_of (res : Response) : Event :=
  let contentType :=
    Str.toLowerCase (match res_content_type res with Some s => s | None => "" end) in
  if Str.includes "application/json" contentType then EvReadJson else EvReadText.

(** A run of bracketed segments, [[a][b][]...]. *)
Inductive bracketed : string -> Prop :=
| bracketed_end : bracketed ""
| bracketed_segment (segment rest : string) :
    bracketed rest -> bracketed ("[" ^^ segment ^^ "]" ^^ rest).

(** [name] is [key] followed by bracketed segments. *)
Definition bracket_path (key name : string) : Prop :=
  exists rest, name = key ^^ rest /\ bracketed rest.

(** The token a verb call carries. *)
Definition verb_token (c : VerbCall number) : option string :=
  match c with
  | CallGet _ _ token | CallPost _ _ token | CallPut _ _ token
  | CallPatch _ _ token | CallDelete _ token | CallDeleteWithBody _ _ token => token
  end.


End ClientNotions.

(** ** The login feature

    The form client of [api.client.ts], the cookie helpers of
    [cookies.server.ts], the login actions and the error state of the login
    form. What these call outside the repository is taken as given: the
    transport, the schema's [safeParse], the cookie jar of the request
    event. *)

(** *** Thrown values that need not be errors *)

(** What a [catch (error)] can receive: an [Error] object, or a value for
    which [error instanceof Error] is false. *)
Inductive Thrown :=
| ThrownError (e : JsError)
| ThrownOther.

(** The outcome of an awaited promise or of a call. *)
Inductive Outcome (A : Type) : Type :=
| Settled (a : A)
| Rejected (t : Thrown).
Arguments Settled {A} a.
Arguments Rejected {A} t.

(** *** Cookies *)

Inductive SameSite := Lax | Strict | SameSiteNone.

(** An optional property of an object literal: not there, there and
    holding [undefined], or there with a value. *)
Inductive Field (A : Type) : Type :=
| Absent
| Undefined
| Given (a : A).
Arguments Absent {A}.
Arguments Undefined {A}.
Arguments Given {A} a.

Record CookieSetOptions := mkCookieOptions {
  httpOnly : Field bool;
  secure : Field bool;
  sameSite : Field SameSite;
  path : Field string;
  maxAge : Field Z;
  expires : Field JsDate;
  domain : Field string
}.

(** [{}]. *)
Definition no_options : CookieSetOptions :=
  mkCookieOptions Absent Absent Absent Absent Absent Absent Absent.

Definition DEFAULT_COOKIE_OPTIONS (dev : bool) : CookieSetOptions :=
  mkCookieOptions (Given true) (Given (negb dev)) (Given Lax) (Given "/")
    (Given (60 * 60 * 24 * 1)) Absent Absent.

(** One property under [{ ...dst, ...src }]: an own property of [src],
    whatever it holds, replaces that of [dst]. *)
Definition spread_field {A} (dst src : Field A) : Field A :=
  match src with
  | Absent => dst
  | _ => src
  end.

Definition spread_options (dst src : CookieSetOptions) : CookieSetOptions :=
  mkCookieOptions
    (spread_field (httpOnly dst) (httpOnly src))
    (spread_field (secure dst) (secure src))
    (spread_field (sameSite dst) (sameSite src))
    (spread_field (path dst) (path src))
    (spread_field (maxAge dst) (maxAge src))
    (spread_field (expires dst) (expires src))
    (spread_field (domain dst) (domain src)).

(** [x ?? fallback] on a property read. *)
Definition field_or {A} (x : Field A) (fallback : A) : A :=
  match x with
  | Given a => a
  | _ => fallback
  end.

Definition with_path (p : string) (o : CookieSetOptions) : CookieSetOptions :=
  mkCookieOptions (httpOnly o) (secure o) (sameSite o) (Given p) (maxAge o)
    (expires o) (domain o).

(** The [finalOptions] of [setCookieServer]. *)
Definition finalOptions (dev : bool) (options : option CookieSetOptions)
  : CookieSetOptions :=
  let given := match options with Some o => o | None => no_options end in
  with_path
    (field_or (match options with Some o => path o | None => Absent end)
       (field_or (path (DEFAULT_COOKIE_OPTIONS dev)) "/"))
    (spread_options (DEFAULT_COOKIE_OPTIONS dev) given).

Section LoginFeature.
Context {number : Type} `{JsNumber number}.
Local Abbreviation Json := (Json number).

(** What is stored under a cookie's name: the value as it is passed,
    [None] being [undefined]. *)
Definition CookieValue : Type := option Json.

(** What an action does to the world outside. *)
Inductive Effect : Type :=
| FxFetch (url : string) (method : HttpMethod) (headers : Headers) (body : string)
| FxSetCookie (name : string) (value : CookieValue) (options : CookieSetOptions)
| FxDeleteCookie (name : string) (path : string).

(** The cookie jar of a request event: what [get] answers, and whether a
    [set] is refused with a throw. *)
Record Cookies : Type := mkCookies {
  cookies_get : string -> option string;
  cookies_set : string -> CookieValue -> CookieSetOptions -> option Thrown
}.

(** [event.cookies.set(name, value, finalOptions)]. *)
Definition setCookieServer (dev : bool) (jar : Cookies) (name : string)
  (value : CookieValue) (options : option CookieSetOptions)
  : Outcome unit * list Effect :=
  let final := finalOptions dev options in
  match cookies_set jar name value final with
  | Some t => (Rejected t, [])
  | None => (Settled tt, [FxSetCookie name value final])
  end.

Definition getCookieServer (jar : Cookies) (name : string) : option string :=
  cookies_get jar name.

Definition deleteCookieServer (name : string) : list Effect :=
  [FxDeleteCookie name "/"].

Definition getAuthServer (jar : Cookies) : option string :=
  let fs := getCookieServer jar "fs_at" in
  match fs with
  | Some s => if Str.truthy s then fs else getCookieServer jar "st_manager_at"
  | None => getCookieServer jar "st_manager_at"
  end.

Definition getStoreManagerAuthServer (jar : Cookies) : option string :=
  getCookieServer jar "st_manager_at".

Definition getUserRoleServer (jar : Cookies) : option string :=
  getCookieServer jar "fs_user_role".

(** [if (token)] on what a cookie read gives. *)
Definition token_truthy (token : option string) : bool :=
  match token with
  | Some s => Str.truthy s
  | None => false
  end.

Definition is_api_call (fx : Effect) : bool :=
  match fx with
  | FxFetch _ _ _ _ => true
  | _ => false
  end.

Definition is_cookie_write (fx : Effect) : bool :=
  match fx with
  | FxSetCookie _ _ _ => true
  | _ => false
  end.

(** *** The form client *)

(** A response as [apiFormPost] uses it. *)
Record FormResponse : Type := mkFormResponse {
  fr_ok : bool;
  fr_status : Z;
  fr_json : Outcome Json
}.

(** The transport of the form client, and the text of the [TypeError] the
    platform throws when a property of [null] is read. *)
Record FormNet : Type := mkFormNet {
  net_fetch : string -> HttpMethod -> Headers -> string -> Outcome FormResponse;
  net_null_read : string
}.

(** The [ApiResponse] of the form client; an absent field is [None]. *)
Record ClientResponse : Type := mkClientResponse {
  c_success : bool;
  c_message : option Json;
  c_data : option Json
}.

(** The [catch] clause of [apiFormPost]. *)
Definition client_catch (t : Thrown) : ClientResponse :=
  mkClientResponse false
    (Some (JStr (match t with
                 | ThrownError e => err_message e
                 | ThrownOther => "An unknown error occurred"
                 end)))
    None.

(** [Object.entries(body).forEach(([key, value]) => formData.append(key, value))]. *)
Definition form_params (body : list (string * string)) : USP.t :=
  fold_left (fun fd kv => USP.append (fst kv) (snd kv) fd) body [].

Definition apiFormPost (API_URL : string) (net : FormNet) (endpoint : string)
  (body : list (string * string)) : ClientResponse * list Effect :=
  let apiUrl := if Str.truthy API_URL then API_URL else "" in
  let url := apiUrl ^^ endpoint in
  let formData := form_params body in
  let headers : Headers := {[ "Content-Type" := "application/x-www-form-urlencoded" ]} in
  let text := USP.toString formData in
  let effects := [FxFetch url POST headers text] in
  match net_fetch net url POST headers text with
  | Rejected t => (client_catch t, effects)
  | Settled response =>
      match fr_json response with
      | Rejected t => (client_catch t, effects)
      | Settled data =>
          if negb (fr_ok response) then
            match data with
            | JNull =>
                (* data.message throws: data is null *)
                (client_catch (ThrownError (mkError "TypeError" (net_null_read net))),
                 effects)
            | _ =>
                (mkClientResponse false
                   (Some (or_else (Json.get "message" data)
                            (JStr ("HTTP error! status: " ^^ Str.of_Z (fr_status response)))))
                   None,
                 effects)
            end
          else (mkClientResponse true None (Some data), effects)
      end
  end.

End LoginFeature.
Arguments Effect number : clear implicits.
Arguments Cookies number : clear implicits.
Arguments FormResponse number : clear implicits.
Arguments FormNet number : clear implicits.
Arguments ClientResponse number : clear implicits.

(** *** The login action *)

(** What [formData.get(name)] answers. *)
Inductive EntryValue :=
| EntryNull
| EntryString (s : string)
| EntryFile (content : Blob) (filename : option string).

Definition entry_name (e : FormEntry) : string :=
  match e with
  | FormField name _ | FormPart name _ _ => name
  end.

(** [FormData.get]: the value of the first entry of that name. *)
Fixpoint form_get (name : string) (fd : FormData) : EntryValue :=
  match fd with
  | [] => EntryNull
  | e :: r =>
      if String.eqb (entry_name e) name then
        match e with
        | FormField _ value => EntryString value
        | FormPart _ content filename => EntryFile content filename
        end
      else form_get name r
  end.

Record RawData := mkRawData { raw_username : EntryValue; raw_password : EntryValue }.

(** [keyof LoginInput]. *)
Inductive LoginField := Username | Password.

Definition field_name (f : LoginField) : string :=
  match f with
  | Username => "username"
  | Password => "password"
  end.

Definition same_field (f g : LoginField) : bool :=
  match f, g with
  | Username, Username | Password, Password => true
  | _, _ => false
  end.

(** An issue of the schema, its path read as the action reads it
    ([error.path[0] as keyof LoginInput]). *)
Record Issue := mkIssue { issue_path : list LoginField; issue_message : string }.

(** The result of [LoginSchema.safeParse]. *)
Inductive SafeParse :=
| ParseSuccess (username password : string)
| ParseFailure (issues : list Issue).

(** [Partial<Record<keyof LoginInput, string[]>>]. *)
Record Issues := mkIssues {
  for_username : option (list string);
  for_password : option (list string)
}.

Definition no_issues : Issues := mkIssues None None.

(** [issues[path]]. *)
Definition issues_get (f : LoginField) (i : Issues) : option (list string) :=
  match f with
  | Username => for_username i
  | Password => for_password i
  end.

(** [issues[path] = messages]. *)
Definition issues_set (f : LoginField) (messages : list string) (i : Issues) : Issues :=
  match f with
  | Username => mkIssues (Some messages) (for_password i)
  | Password => mkIssues (for_username i) (Some messages)
  end.

(** The body of the loop over [result.error.issues]. A field's name is a
    non-empty string, so [if (path)] fails only on an empty path. *)
Definition collect (issues : Issues) (error : Issue) : Issues :=
  match issue_path error with
  | path :: _ =>
      let issues :=
        match issues_get path issues with
        | Some _ => issues
        | None => issues_set path [] issues
        end in
      match issues_get path issues with
      | Some messages => issues_set path (messages ++ [issue_message error]) issues
      | None => issues
      end
  | [] => issues
  end.

Definition collect_all (errors : list Issue) : Issues :=
  fold_left collect errors no_issues.

(** The messages of the issues filed under a field, in their order. *)
Definition messages_for (f : LoginField) (errors : list Issue) : list string :=
  List.map issue_message
    (List.filter (fun e => match issue_path e with
                           | p :: _ => same_field p f
                           | [] => false
                           end) errors).

Section LoginAction.
Context {number : Type} `{JsNumber number}.
Local Abbreviation Json := (Json number).

Record LoginActionState : Type := mkState {
  st_success : bool;
  st_message : option Json;
  st_error : option string;
  st_issues : option Issues
}.

(** What an action resolves to: a plain state, or [fail(status, state)]. *)
Inductive ActionResult : Type :=
| Plain (state : LoginActionState)
| Failure (status : Z) (state : LoginActionState).

Record RequestEvent : Type := mkEvent {
  ev_formData : Outcome FormData;
  ev_cookies : Cookies number
}.

(** [fail(400, { success: false, issues })]. *)
Definition invalid (errors : list Issue) : ActionResult :=
  Failure 400 (mkState false None None (Some (collect_all errors))).

(** [fail(401, { success: false, message })]. *)
Definition unauthorized (message : Json) : ActionResult :=
  Failure 401 (mkState false (Some message) None None).

Definition raw_data (formData : FormData) : RawData :=
  mkRawData (form_get "email" formData) (form_get "password" formData).

(** The three [setCookieServer] calls of the array literal, left to
    right; a throw of one ends the action. *)
Definition store_session (dev : bool) (jar : Cookies number) (token user : Json)
  : Outcome unit * list (Effect number) :=
  match setCookieServer dev jar "fs_at" (Some token) None with
  | (Rejected t, fx) => (Rejected t, fx)
  | (Settled _, fx1) =>
      match setCookieServer dev jar "fs_current_udata"
              (Some (JStr (Json.stringify user))) None with
      | (Rejected t, fx) => (Rejected t, fx1 ++ fx)
      | (Settled _, fx2) =>
          match setCookieServer dev jar "fs_user_role" (Json.get "role" user) None with
          | (Rejected t, fx) => (Rejected t, fx1 ++ fx2 ++ fx)
          | (Settled _, fx3) => (Settled tt, fx1 ++ fx2 ++ fx3)
          end
      end
  end.

(** [loginAction] of [login.action.ts]. *)
Definition loginAction (API_URL : string) (dev : bool) (safeParse : RawData -> SafeParse)
  (net : FormNet number) (event : RequestEvent) : Outcome ActionResult * list (Effect number) :=
  match ev_formData event with
  | Rejected t => (Rejected t, [])
  | Settled formData =>
      match safeParse (raw_data formData) with
      | ParseFailure errors => (Settled (invalid errors), [])
      | ParseSuccess username password =>
          let body := [("username", username); ("password", password)] in
          match apiFormPost API_URL net "/auth/login" body with
          | (res, fx) =>
              if negb (c_success res) then
                (Settled (unauthorized
                            (or_else (c_message res) (JStr "Login failed"))), fx)
              else
                let token := match c_data res with
                             | Some d => Json.get_opt "access_token" d
                             | None => None
                             end in
                let user := match c_data res with
                            | Some d => Json.get_opt "user" d
                            | None => None
                            end in
                match token, user with
                | Some token, Some user =>
                    if Json.truthy token && Json.truthy user then
                      match store_session dev (ev_cookies event) token user with
                      | (Rejected t, fx') => (Rejected t, fx ++ fx')
                      | (Settled _, fx') =>
                          (Settled (Plain (mkState true None None None)), fx ++ fx')
                      end
                    else
                      (Settled (unauthorized (JStr "Invalid response from server")), fx)
                | _, _ =>
                    (Settled (unauthorized (JStr "Invalid response from server")), fx)
                end
          end
      end
  end.

End LoginAction.
Arguments LoginActionState number : clear implicits.
Arguments ActionResult number : clear implicits.
Arguments RequestEvent number : clear implicits.

(** The placeholder login action, the variant that does not call the API. *)
Module Unwired.
Section Action.
Context {number : Type} `{JsNumber number}.

Definition loginAction (safeParse : RawData -> SafeParse) (request : Outcome FormData)
  : Outcome (ActionResult number) :=
  match request with
  | Rejected t => Rejected t
  | Settled formData =>
      match safeParse (raw_data formData) with
      | ParseFailure errors => Settled (invalid errors)
      | ParseSuccess _ _ => Settled (unauthorized (JStr "Invalid email or password"))
      end
  end.

End Action.
End Unwired.

(** *** The error state of the login form *)

Section LoginForm.
Context {number : Type} `{JsNumber number}.
Local Abbreviation Json := (Json number).

(** [Object.entries(issues)]; the two names differ, so the order of the
    entries does not matter to what is built from them. *)
Definition issue_entries (i : Issues) : list (string * list string) :=
  match for_username i with
  | Some l => [(field_name Username, l)]
  | None => []
  end ++
  match for_password i with
  | Some l => [(field_name Password, l)]
  | None => []
  end.

(** The callback of [Object.entries(issues).forEach]: the first message
    of a field that has one. *)
Definition first_error (newErrors : gmap string string) (entry : string * list string)
  : gmap string string :=
  match snd entry with
  | m :: _ => <[ fst entry := m ]> newErrors
  | [] => newErrors
  end.

Definition field_errors (i : Issues) : gmap string string :=
  fold_left first_error (issue_entries i) ∅.

(** [a ?? b] on an optional message. *)
Definition message_or (m : option Json) (fallback : Json) : Json :=
  match m with
  | Some JNull | None => fallback
  | Some v => v
  end.

(** What the form does with an action state that is no success: the text
    of the error toast and the new [errors]. *)
Definition toast_text (state : LoginActionState number) : Json :=
  message_or (st_message state)
    (match st_error state with
     | Some e => JStr e
     | None => JStr "Failed to login"
     end).

(** [errors] after the submit callback has seen a failure with [data]. *)
Definition errors_after (state : LoginActionState number) : gmap string string :=
  match st_issues state with
  | Some i => field_errors i
  | None => ∅
  end.

(** [aria-invalid] of an input: [errors.name ? 'true' : undefined]. *)
Definition flagged (name : string) (errors : gmap string string) : bool :=
  match errors !! name with
  | Some _ => true
  | None => false
  end.

End LoginForm.

(** ** Concrete calls

    Scenarios on integer-valued numbers, on which the statements below are
    run. *)

Module Scenario.

Definition origin : string := "https://api.example.test".

(** A world with no timer and an empty trace. *)
Definition start : World := mkWorld ∅ [].

(** A JSON response carrying [payload]. *)
Definition respond (status : Z) (statusText : string) (ok : bool) (payload : Json Z)
  : Response Z :=
  mkResponse status statusText ok (Some "application/json; charset=utf-8")
    (Normal payload) (Normal (Json.stringify payload)).

(** A plain-text response. *)
Definition respond_text (status : Z) (statusText : string) (ok : bool) (text : string)
  : Response Z :=
  mkResponse status statusText ok (Some "text/plain")
    (Throw (mkError "SyntaxError" "Unexpected token")) (Normal text).

(** A transport that settles after 100 ms. *)
Definition answering (outcome : Completion (Response Z)) : Env Z :=
  mkEnv "This operation was aborted" 100 (fun _ => outcome).

Definition credentials : RequestBody Z :=
  BodyVal (VObj [("username", VStr "ada@example.test"); ("password", VStr "s3cret")]).

Definition validation_error : Json Z :=
  JObj [("detail", JArr [JObj [("msg", JStr "bad field")]; JStr "other"])].

Definition empty_msg_detail : Json Z := JObj [("msg", JStr "")].

Definition null_detail : Json Z :=
  JObj [("detail", JNull); ("message", JStr "Unprocessable")].


(** The login form as the browser posts it. *)
Definition login_form : FormData :=
  [FormField "email" "ada@example.test"; FormField "password" "s3cret"].

(** A stand-in for the login schema: an email is a string with an at
    sign, a password a string that is not empty. *)
Definition schema (raw : RawData) : SafeParse :=
  match raw_username raw, raw_password raw with
  | EntryString u, EntryString p =>
      match Str.includes "@" u, Str.truthy p with
      | true, true => ParseSuccess u p
      | email_ok, password_ok =>
          ParseFailure
            ((if email_ok then [] else [mkIssue [Username] "Invalid email address"])
             ++ (if password_ok then [] else [mkIssue [Password] "Password is required"]))
      end
  | _, _ => ParseFailure [mkIssue [] "Invalid input"]
  end.

(** A cookie jar that holds nothing and accepts every write. *)
Definition open_jar : Cookies Z := mkCookies (fun _ => None) (fun _ _ _ => None).

(** A transport of the form client with one outcome for every request. *)
Definition answers (outcome : Outcome (FormResponse Z)) : FormNet Z :=
  mkFormNet (fun _ _ _ _ => outcome) "Cannot read properties of null".

Definition login_event : RequestEvent Z := mkEvent (Settled login_form) open_jar.

End Scenario.

(** * Proofs *)

Section MonadRules.

Lemma world_eta (w : World) : mkWorld (w_timers w) (w_trace w ++ []) = w.
Proof. destruct w; simpl. by rewrite app_nil_r. Qed.

Lemma steps_ret {A} (a : A) (Q : Completion A -> list Event -> Prop) :
  Q (Normal a) [] -> steps (ret a) Q.
Proof. intros HQ w. exists (Normal a), []. by rewrite world_eta. Qed.

Lemma steps_lift {A} (c : Completion A) (Q : Completion A -> list Event -> Prop) :
  Q c [] -> steps (lift c) Q.
Proof. intros HQ w. exists c, []. by rewrite world_eta. Qed.

Lemma steps_emit (e : Event) (Q : Completion unit -> list Event -> Prop) :
  Q (Normal tt) [e] -> steps (emit e) Q.
Proof. intros HQ w. by exists (Normal tt), [e]. Qed.

Lemma steps_weaken {A} (m : M A) (P Q : Completion A -> list Event -> Prop) :
  steps m P -> (forall r evs, P r evs -> Q r evs) -> steps m Q.
Proof.
  intros Hm HPQ w. destruct (Hm w) as (r & evs & Hrun & HP).
  exists r, evs. auto.
Qed.

Lemma steps_bind {A B} (m : M A) (k : A -> M B)
  (P : Completion A -> list Event -> Prop) (Q : Completion B -> list Event -> Prop) :
  steps m P ->
  (forall a evs, P (Normal a) evs -> steps (k a) (fun r evs' => Q r (evs ++ evs'))) ->
  (forall e evs, P (Throw e) evs -> Q (Throw e) evs) ->
  steps (bind m k) Q.
Proof.
  intros Hm Hk He w. destruct (Hm w) as (r & evs & Hrun & HP).
  unfold bind. rewrite Hrun. destruct r as [a|e].
  - destruct (Hk a evs HP (mkWorld (w_timers w) (w_trace w ++ evs)))
      as (r' & evs' & Hrun' & HQ).
    simpl in Hrun'. exists r', (evs ++ evs'). by rewrite Hrun', app_assoc.
  - exists (Throw e), evs. auto.
Qed.

Lemma steps_try_catch {A} (body : M A) (handler : JsError -> M A)
  (P Q : Completion A -> list Event -> Prop) :
  steps body P ->
  (forall a evs, P (Normal a) evs -> Q (Normal a) evs) ->
  (forall e evs, P (Throw e) evs -> steps (handler e) (fun r evs' => Q r (evs ++ evs'))) ->
  steps (try_catch body handler) Q.
Proof.
  intros Hm Hn Hh w. destruct (Hm w) as (r & evs & Hrun & HP).
  unfold try_catch. rewrite Hrun. destruct r as [a|e].
  - exists (Normal a), evs. auto.
  - destruct (Hh e evs HP (mkWorld (w_timers w) (w_trace w ++ evs)))
      as (r' & evs' & Hrun' & HQ).
    simpl in Hrun'. exists r', (evs ++ evs'). by rewrite Hrun', app_assoc.
Qed.

Lemma steps_emit_then {B} (e : Event) (k : unit -> M B)
  (Q : Completion B -> list Event -> Prop) :
  steps (k tt) (fun r evs => Q r (e :: evs)) -> steps (bind (emit e) k) Q.
Proof.
  intros Hk. eapply steps_bind with (P := fun r evs => r = Normal tt /\ evs = [e]).
  - by apply steps_emit.
  - intros [] evs [_ ->]. exact Hk.
  - by intros e' evs [? _].
Qed.

Lemma steps_lift_then {A B} (c : Completion A) (k : A -> M B)
  (Q : Completion B -> list Event -> Prop) :
  match c with
  | Normal a => steps (k a) Q
  | Throw e => Q (Throw e) []
  end ->
  steps (bind (lift c) k) Q.
Proof.
  intros Hk. eapply steps_bind with (P := fun r evs => r = c /\ evs = []).
  - by apply steps_lift.
  - intros a evs [<- ->]. exact Hk.
  - intros e evs [<- ->]. exact Hk.
Qed.

(** A computation has one outcome: two descriptions of it hold together. *)
Lemma steps_and {A} (m : M A) (P Q : Completion A -> list Event -> Prop) :
  steps m P -> steps m Q -> steps m (fun r evs => P r evs /\ Q r evs).
Proof.
  intros HP HQ w. destruct (HP w) as (r & evs & Hrun & Hp).
  destruct (HQ w) as (r' & evs' & Hrun' & Hq).
  rewrite Hrun in Hrun'. injection Hrun' as <- Hevs.
  apply app_inv_head in Hevs as <-. exists r, evs. auto.
Qed.

End MonadRules.

Section RequestRules.
Context {number : Type} `{JsNumber number}.
Local Abbreviation Json := (Json number).
Local Abbreviation RequestBody := (RequestBody number).
Local Abbreviation Response := (Response number).
Local Abbreviation Env := (Env number).
Local Abbreviation ApiResponse := (ApiResponse number).

Lemma compose_each_run (env : Env) signals c w :
  exists n,
    compose_each env signals c w =
      (Normal (fold_left (compose_signal (env_abort_text env)) signals c),
       mkWorld (w_timers w) (w_trace w ++ repeat EvListen n)).
Proof.
  revert c w. induction signals as [|sig r IH]; intros c w.
  - exists 0%nat. simpl. unfold ret. by rewrite world_eta.
  - destruct sig as [reason|t reason|]; simpl.
    + apply IH.
    + unfold bind, emit.
      destruct (IH (schedule_abort t (Some reason) c)
                  (mkWorld (w_timers w) (w_trace w ++ [EvListen]))) as (n & Hn).
      exists (S n). rewrite Hn. simpl. by rewrite <- app_assoc.
    + unfold bind, emit.
      destruct (IH c (mkWorld (w_timers w) (w_trace w ++ [EvListen]))) as (n & Hn).
      exists (S n). rewrite Hn. simpl. by rewrite <- app_assoc.
Qed.

Lemma fresh_released (T : gset positive) : ({[ fresh T ]} ∪ T) ∖ {[ fresh T ]} = T.
Proof.
  apply set_eq. intros x. rewrite elem_of_difference, elem_of_union, !elem_of_singleton.
  pose proof (is_fresh T) as Hfresh. split.
  - intros [[->|Hx] Hne]; [done|done].
  - intros Hx. split; [by right|]. intros ->. done.
Qed.

(** A call is its [try] block run on the composed controller, between the
    scheduling and the release of its timer. *)
Lemma request_run (env : Env) api path method (body : RequestBody) init
  (Q : Completion ApiResponse -> list Event -> Prop) :
  steps (try_catch
           (attempt env api path method body init
              (compose (env_abort_text env) (effective_timeout api init) (signals_of init)))
           on_throw) Q ->
  forall w, exists r evs n,
    Q r evs /\
    request env api path method body init w =
      (r, mkWorld (w_timers w)
            (w_trace w
             ++ timer_set (effective_timeout api init) (fresh (w_timers w))
             ++ repeat EvListen n ++ evs
             ++ timer_cleared (effective_timeout api init) (fresh (w_timers w)))).
Proof.
  intros Hbody w. unfold request, arm, timer_set, timer_cleared.
  unfold compose in Hbody. revert Hbody.
  destruct (timer_wanted (effective_timeout api init)) eqn:Ht; intros Hbody.
  - unfold bind, setTimeout, ret at 1. cbv beta iota.
    match goal with
    | |- context [compose_each env ?s ?c ?w0] =>
        destruct (compose_each_run env s c w0) as (n & Hn); rewrite Hn
    end.
    unfold ret, try_finally. cbv beta iota. simpl w_timers. simpl w_trace.
    match goal with
    | |- context [try_catch ?b ?h ?w0] =>
        destruct (Hbody w0) as (r & evs & Hrun & HQ); rewrite Hrun
    end.
    exists r, evs, n. split; [done|].
    unfold release, handle_truthy, clearTimeout. simpl.
    rewrite fresh_released. f_equal. f_equal.
    rewrite <- !app_assoc. done.
  - unfold bind, ret at 1. cbv beta iota.
    match goal with
    | |- context [compose_each env ?s ?c ?w0] =>
        destruct (compose_each_run env s c w0) as (n & Hn); rewrite Hn
    end.
    unfold ret at 1. unfold try_finally. cbv beta iota. simpl w_timers. simpl w_trace.
    match goal with
    | |- context [try_catch ?b ?h ?w0] =>
        destruct (Hbody w0) as (r & evs & Hrun & HQ); rewrite Hrun
    end.
    exists r, evs, n. split; [done|].
    unfold release, ret. simpl. rewrite app_nil_r, <- !app_assoc. done.
Qed.

Lemma parse_body_steps (res : Response) :
  steps (parse_body res)
    (fun r evs => (exists j, r = Normal j) /\ Forall (fun e => reply_event e = true) evs).
Proof.
  unfold parse_body.
  eapply steps_try_catch with
    (P := fun r evs => Forall (fun e => reply_event e = true) evs).
  - destruct (Str.includes _ _).
    + unfold read_json. apply steps_emit_then, steps_lift. by repeat constructor.
    + unfold read_text. eapply steps_bind with
        (P := fun r evs => Forall (fun e => reply_event e = true) evs).
      * apply steps_emit_then, steps_lift. by repeat constructor.
      * intros s evs Hevs. apply steps_ret. by rewrite app_nil_r.
      * auto.
  - intros a evs Hevs. eauto.
  - intros e evs Hevs. apply steps_ret. rewrite app_nil_r. eauto.
Qed.

(** The value [parse_body] gives does not depend on the world. *)
Lemma parse_body_value (res : Response) w0 w0' parsed :
  parse_body res w0 = (Normal parsed, w0') ->
  forall w, exists evs,
    parse_body res w = (Normal parsed, mkWorld (w_timers w) (w_trace w ++ evs))
    /\ Forall (fun e => reply_event e = true) evs.
Proof.
  unfold parse_body, try_catch, read_json, read_text, bind, emit, lift, ret.
  destruct (Str.includes _ _).
  - destruct (res_json res) as [j|e]; intros Heq w; inversion Heq; subst;
      eexists; (split; [reflexivity|by repeat constructor]).
  - destruct (res_text res) as [j|e]; intros Heq w; inversion Heq; subst;
      eexists; (split; [reflexivity|by repeat constructor]).
Qed.

Ltac discriminated_by_fields :=
  unfold discriminated; simpl; split; split; intros Hx;
  first [ done | by eexists | by destruct Hx ].

Lemma failure_discriminated status (m : Json) d : discriminated (failure status m d).
Proof. unfold failure. discriminated_by_fields. Qed.

Lemma normalize_steps (res : Response) :
  steps (normalize res)
    (fun r evs => (exists a, r = Normal a /\ discriminated a)
                  /\ Forall (fun e => reply_event e = true) evs).
Proof.
  unfold normalize. destruct (Z.eqb _ _).
  - apply steps_ret. split; [|constructor]. eexists; split; [done|].
    discriminated_by_fields.
  - eapply steps_bind; [apply parse_body_steps| |].
    + intros parsed evs [_ Hevs]. destruct (negb _).
      * apply steps_emit_then. destruct (extract_error _ _) as [m d].
        apply steps_ret. split.
        -- eexists; split; [done|]. apply failure_discriminated.
        -- apply Forall_app; split; [done|by repeat constructor].
      * apply steps_ret. split.
        -- eexists; split; [done|].
           discriminated_by_fields.
        -- by rewrite app_nil_r.
    + intros e evs [[j Hj] _]. done.
Qed.

Lemma reply_is_try_event api path method init e :
  reply_event e = true -> try_event api path method init e.
Proof. by destruct e. Qed.

(** The [try] block, whatever the outcome. *)
Lemma attempt_steps (env : Env) api path method (body : RequestBody) init c :
  steps (attempt env api path method body init c)
    (fun r evs => (forall a, r = Normal a -> discriminated a)
                  /\ Forall (try_event api path method init) evs).
Proof.
  unfold attempt. apply steps_lift_then.
  destruct (serializeBody _ _) as [payload|e]; [|by split].
  unfold fetch.
  eapply steps_bind with
    (P := fun r evs => evs = [EvFetch (fetch_call api path method payload init)]).
  - apply steps_emit_then. destruct (ctl_reason _); by apply steps_lift.
  - intros res evs ->. eapply steps_weaken; [apply normalize_steps|].
    intros r evs [(a & -> & Ha) Hevs]. split.
    + by intros a' [= <-].
    + constructor; [by eexists|].
      eapply Forall_impl; [exact Hevs|]. intros e. apply reply_is_try_event.
  - intros e evs ->. split; [done|]. repeat constructor. by eexists.
Qed.

Lemma on_throw_steps (e : JsError) :
  steps (on_throw (number := number) e)
    (fun r evs => (exists a, r = Normal a /\ discriminated a) /\ evs = []).
Proof.
  unfold on_throw. apply steps_ret. split; [|done].
  eexists; split; [done|]. apply failure_discriminated.
Qed.

(** The [try] with its [catch]: always an envelope. *)
Lemma guarded_attempt_steps (env : Env) api path method (body : RequestBody) init c :
  steps (try_catch (attempt env api path method body init c) on_throw)
    (fun r evs => (exists a, r = Normal a /\ discriminated a)
                  /\ Forall (try_event api path method init) evs).
Proof.
  eapply steps_try_catch; [apply attempt_steps| |].
  - intros a evs [Ha Hevs]. split; [|done]. eauto.
  - intros e evs [_ Hevs]. eapply steps_weaken; [apply on_throw_steps|].
    intros r evs' [Hr ->]. split; [done|]. by rewrite app_nil_r.
Qed.

(** Every call returns an envelope, and this is all it does. *)
Lemma request_trace (env : Env) api path method (body : RequestBody) init w :
  exists r n evs,
    request env api path method body init w =
      (Normal r,
       mkWorld (w_timers w)
         (w_trace w
          ++ timer_set (effective_timeout api init) (fresh (w_timers w))
          ++ repeat EvListen n ++ evs
          ++ timer_cleared (effective_timeout api init) (fresh (w_timers w))))
    /\ discriminated r
    /\ Forall (try_event api path method init) evs.
Proof.
  destruct (request_run env api path method body init _
              (guarded_attempt_steps env api path method body init _) w)
    as (r & evs & n & [(a & -> & Ha) Hevs] & Hrun).
  exists a, n, evs. auto.
Qed.

(** When the call is answered by [res], the [try] block is [normalize res]
    after the [fetch]. *)
Lemma attempt_delivered (env : Env) api path method (body : RequestBody) init payload res :
  serializeBody (mode api) body = Normal payload ->
  cancellation env api init = None ->
  env_transport env (fetch_call api path method payload init) = Normal res ->
  forall w,
    attempt env api path method body init
      (compose (env_abort_text env) (effective_timeout api init) (signals_of init)) w
    = normalize res
        (mkWorld (w_timers w)
           (w_trace w ++ [EvFetch (fetch_call api path method payload init)])).
Proof.
  intros Hser Hcan Hres w. unfold attempt, fetch, cancellation in *.
  rewrite Hser. unfold bind at 1. unfold lift at 1.
  unfold bind at 1. unfold bind at 1. unfold emit at 1.
  rewrite Hcan, Hres. reflexivity.
Qed.

Lemma delivered_steps (env : Env) api path method (body : RequestBody) init res
  (P : ApiResponse -> list Event -> Prop) :
  delivers env api path method body init res ->
  steps (normalize res) (fun r evs => exists a, r = Normal a /\ P a evs) ->
  steps (try_catch
           (attempt env api path method body init
              (compose (env_abort_text env) (effective_timeout api init) (signals_of init)))
           on_throw)
    (fun r evs => exists a evs' call, r = Normal a /\ evs = EvFetch call :: evs' /\ P a evs').
Proof.
  intros (payload & Hser & Hcan & Hres) Hnorm w.
  unfold try_catch. rewrite (attempt_delivered _ _ _ _ _ _ _ _ Hser Hcan Hres).
  destruct (Hnorm (mkWorld (w_timers w)
                     (w_trace w ++ [EvFetch (fetch_call api path method payload init)])))
    as (r & evs & Hrun & a & -> & HP).
  rewrite Hrun. simpl. eexists _, (_ :: evs). split.
  - by rewrite <- app_assoc.
  - eauto 10.
Qed.

(** The same, for the whole call. *)
Lemma request_delivered (env : Env) api path method (body : RequestBody) init res
  (P : ApiResponse -> list Event -> Prop) :
  delivers env api path method body init res ->
  steps (normalize res) (fun r evs => exists a, r = Normal a /\ P a evs) ->
  forall w, exists a w' evs,
    request env api path method body init w = (Normal a, w')
    /\ P a evs
    /\ w_timers w' = w_timers w
    /\ exists before call after,
         w_trace w' = w_trace w ++ before ++ EvFetch call :: evs ++ after
         /\ Forall (fun e => reply_event e = false) (before ++ after).
Proof.
  intros Hdel Hnorm w.
  destruct (request_run env api path method body init _
              (delivered_steps env api path method body init res P Hdel Hnorm) w)
    as (r & evs & n & (a & evs' & call & -> & -> & HP) & Hrun).
  eexists a, _, evs'. split; [exact Hrun|]. split; [done|]. split; [done|].
  exists (timer_set (effective_timeout api init) (fresh (w_timers w)) ++ repeat EvListen n),
    call, (timer_cleared (effective_timeout api init) (fresh (w_timers w))).
  split.
  - simpl. by rewrite <- !app_assoc.
  - unfold timer_set, timer_cleared. rewrite !Forall_app. repeat split.
    + destruct (timer_wanted _); by repeat constructor.
    + apply List.Forall_forall. intros e He. apply repeat_spec in He. by subst.
    + destruct (timer_wanted _); by repeat constructor.
Qed.

(** When the body serializes, the [try] block begins with the [fetch]. *)
Lemma attempt_fetches (env : Env) api path method (body : RequestBody) init c payload :
  serializeBody (mode api) body = Normal payload ->
  steps (try_catch (attempt env api path method body init c) on_throw)
    (fun _ evs => exists rest, evs = EvFetch (fetch_call api path method payload init) :: rest).
Proof.
  intros Hser. eapply steps_try_catch with
    (P := fun _ evs => exists rest,
            evs = EvFetch (fetch_call api path method payload init) :: rest).
  - unfold attempt. rewrite Hser. apply steps_lift_then.
    eapply steps_bind with
      (P := fun _ evs => evs = [EvFetch (fetch_call api path method payload init)]).
    + unfold fetch. apply steps_emit_then. destruct (ctl_reason _); by apply steps_lift.
    + intros res evs ->. eapply steps_weaken; [apply normalize_steps|].
      intros r evs _. by eexists.
    + intros e evs ->. by eexists.
  - auto.
  - intros e evs [rest ->]. eapply steps_weaken; [apply on_throw_steps|].
    intros r evs [_ ->]. exists rest. by rewrite app_nil_r.
Qed.

Lemma final_headers_cache (base : Headers) (caller : option Headers) :
  final_headers base caller !! "Cache-Control" = Some "no-store, max-age=0".
Proof. unfold final_headers. apply lookup_insert_eq. Qed.

Lemma final_headers_other (base : Headers) (caller : option Headers) (k : string) :
  k <> "Cache-Control" ->
  final_headers base caller !! k =
    match caller with
    | Some h => match h !! k with
                | Some v => Some v
                | None => base !! k
                end
    | None => base !! k
    end.
Proof.
  intros Hk. unfold final_headers, spread_over.
  rewrite lookup_insert_ne by done.
  destruct caller as [h|]; [|done].
  rewrite lookup_union. destruct (h !! k), (base !! k); done.
Qed.

Lemma fetch_only_in_try (t : Z) (id : positive) (n : nat) (evs : list Event) call :
  EvFetch call ∈ timer_set t id ++ repeat EvListen n ++ evs ++ timer_cleared t id ->
  EvFetch call ∈ evs.
Proof.
  rewrite !elem_of_app. unfold timer_set, timer_cleared.
  intros [Hin|[Hin|[Hin|Hin]]]; [| |done|].
  - destruct (timer_wanted t); [|by apply not_elem_of_nil in Hin].
    apply list_elem_of_singleton in Hin. done.
  - apply list_elem_of_In, repeat_spec in Hin. done.
  - destruct (timer_wanted t); [|by apply not_elem_of_nil in Hin].
    apply list_elem_of_singleton in Hin. done.
Qed.



End RequestRules.

Section NormalizerRules.
Context {number : Type} `{JsNumber number}.
Local Abbreviation Json := (Json number).
Local Abbreviation Response := (Response number).

(** The spelling of an index starts with a digit. *)
Lemma of_nat_head (i : nat) :
  exists c r, Str.of_nat i = String c r
              /\ (48 <= nat_of_ascii c)%nat /\ (nat_of_ascii c <= 57)%nat.
Proof.
  unfold Str.of_nat. destruct (Nat.to_uint i); simpl;
    eexists _, _; (split; [reflexivity|]); split; apply Nat.leb_le; reflexivity.
Qed.

(** A name that starts with a letter is no index of an array. *)
Lemma at_index_word (c : ascii) (k : string) (i : nat) (items : list Json) :
  (57 < nat_of_ascii c)%nat -> Json.at_index (String c k) i items = None.
Proof.
  intros Hc. revert i. induction items as [|x r IH]; intros i; [done|].
  simpl. destruct (of_nat_head i) as (d & rest & -> & _ & Hd).
  simpl. destruct (Ascii.eqb_spec c d) as [->|_]; [lia|]. apply IH.
Qed.

Lemma msg_of_get_opt (v : Json) (fallback : Json) :
  or_else (Json.get_opt "msg" v) fallback =
    match msg_of v with
    | Some m => m
    | None => fallback
    end.
Proof.
  unfold or_else, msg_of, Json.get_opt, Json.get. destruct v; try done.
  - simpl. by rewrite at_index_word by (apply Nat.ltb_lt; reflexivity).
  - destruct (Json.assoc "msg" props) as [m|]; [|done]. by destruct (Json.truthy m).
Qed.

(** What [join] makes of the message of an element. *)
Lemma item_message_text (item : Json) :
  join_text (item_message item) = element_text item.
Proof.
  unfold join_text, item_message, element_text. destruct item; try done;
    rewrite msg_of_get_opt; unfold msg_of; try done.
  destruct (Json.assoc "msg" props) as [m|]; [|done].
  destruct (Json.truthy m) eqn:Hm; [|done]. by destruct m.
Qed.

Lemma join_item_messages (sep : string) (items : list Json) :
  join_values sep (List.map item_message items)
  = Str.join sep (List.map element_text items).
Proof.
  unfold join_values. rewrite List.map_map. f_equal.
  apply List.map_ext. intros item. apply item_message_text.
Qed.

(** The code's message is the one the precedence gives. *)
Lemma extract_error_message (statusText : string) (parsed : Json) :
  fst (extract_error statusText parsed) = precedence_message statusText parsed.
Proof.
  unfold extract_error, precedence_message, field, Json.get, status_phrase.
  destruct parsed as [| | | |items|props]; try done.
  - simpl. by rewrite !at_index_word by (apply Nat.ltb_lt; reflexivity).
  - destruct (Json.assoc "detail" props) as [detail|].
    + destruct detail as [| | | |items|dprops]; try done.
      * cbn [fst from_detail]. by rewrite join_item_messages.
      * cbn [fst from_detail]. by rewrite msg_of_get_opt.
    + by destruct (Json.assoc "message" props).
Qed.

(** The code's detail is the payload's [detail] field. *)
Lemma extract_error_detail (statusText : string) (parsed : Json) :
  snd (extract_error statusText parsed) = field "detail" parsed.
Proof.
  unfold extract_error, field, Json.get.
  destruct parsed as [| | | |items|props]; try done.
  - simpl. by rewrite !at_index_word by (apply Nat.ltb_lt; reflexivity).
  - destruct (Json.assoc "detail" props) as [detail|].
    + by destruct detail.
    + by destruct (Json.assoc "message" props).
Qed.

Lemma slice0_length (n : nat) (s : string) :
  String.length (Str.slice0 n s) = Nat.min n (String.length s).
Proof.
  unfold Str.slice0. revert s. induction n as [|n IH]; intros s.
  - by destruct s.
  - destruct s as [|c r]; [done|]. simpl. by rewrite IH.
Qed.

(** A failing response that is not a 204 is normalized to the failure
    envelope of the message and detail extracted from its parsed body. *)
Lemma normalize_failing (res : Response) (parsed : Json) w0 w0' :
  res_status res <> 204 ->
  res_ok res = false ->
  parse_body res w0 = (Normal parsed, w0') ->
  steps (normalize res)
    (fun r evs =>
       exists a, r = Normal a
                 /\ a = failure (res_status res)
                          (fst (extract_error (res_statusText res) parsed))
                          (snd (extract_error (res_statusText res) parsed))).
Proof.
  intros Hstatus Hok Hparse w. unfold normalize.
  apply Z.eqb_neq in Hstatus. rewrite Hstatus, Hok. simpl negb. cbv iota.
  destruct (parse_body_value res w0 w0' parsed Hparse w) as (evs & Hrun & _).
  unfold bind at 1. rewrite Hrun. unfold bind, emit, ret. simpl.
  destruct (extract_error _ _) as [m d]. simpl.
  eexists _, (evs ++ [EvConsoleError]). rewrite <- app_assoc. split; [reflexivity|].
  eauto.
Qed.

End NormalizerRules.

Section WireRules.

Lemma truthy_cat (a b : string) : Str.truthy (a ^^ b) = Str.truthy a || Str.truthy b.
Proof. by destruct a. Qed.

Lemma lacks_cat (sep : ascii) (a b : string) :
  lacks sep (a ^^ b) = lacks sep a && lacks sep b.
Proof.
  induction a as [|x a IH]; simpl; [done|]. rewrite IH. by rewrite andb_assoc.
Qed.

Lemma split_lacks (sep : ascii) (a : string) :
  lacks sep a = true -> USP.split sep a = [a].
Proof.
  induction a as [|x a IH]; simpl; [done|].
  intros Hl. apply andb_prop in Hl as [Hx Ha].
  apply negb_true_iff in Hx. rewrite Hx, (IH Ha). done.
Qed.

Lemma split_cat (sep : ascii) (a b : string) :
  lacks sep a = true -> USP.split sep (a ^^ String sep b) = a :: USP.split sep b.
Proof.
  induction a as [|x a IH]; simpl.
  - intros _. by rewrite Ascii.eqb_refl.
  - intros Hl. apply andb_prop in Hl as [Hx Ha].
    apply negb_true_iff in Hx. rewrite Hx, (IH Ha). done.
Qed.

Lemma cut_cat (sep : ascii) (a b : string) :
  lacks sep a = true -> USP.cut sep (a ^^ String sep b) = (a, Some b).
Proof.
  induction a as [|x a IH]; simpl.
  - intros _. by rewrite Ascii.eqb_refl.
  - intros Hl. apply andb_prop in Hl as [Hx Ha].
    apply negb_true_iff in Hx. rewrite Hx, (IH Ha). done.
Qed.

(** An encoded unit holds neither [&] nor [=], and decodes to the unit. *)
Lemma encode_unit_lacks (c : ascii) :
  lacks "&" (USP.encode_unit c) = true /\ lacks "=" (USP.encode_unit c) = true.
Proof. destruct c as [[] [] [] [] [] [] [] []]; split; reflexivity. Qed.

Lemma decode_unit (c : ascii) (t : string) :
  USP.decode (USP.encode_unit c ^^ t) = String c (USP.decode t).
Proof. destruct c as [[] [] [] [] [] [] [] []]; reflexivity. Qed.

Lemma encode_lacks (s : string) :
  lacks "&" (USP.encode s) = true /\ lacks "=" (USP.encode s) = true.
Proof.
  induction s as [|c r [IH1 IH2]]; simpl; [done|].
  destruct (encode_unit_lacks c) as [H1 H2].
  by rewrite !lacks_cat, H1, H2, IH1, IH2.
Qed.

Lemma decode_encode (s : string) : USP.decode (USP.encode s) = s.
Proof.
  induction s as [|c r IH]; simpl; [done|]. by rewrite decode_unit, IH.
Qed.

Lemma wire_pair_lacks (kv : string * string) : lacks "&" (wire_pair kv) = true.
Proof.
  unfold wire_pair. rewrite !lacks_cat.
  destruct (encode_lacks (fst kv)) as [-> _], (encode_lacks (snd kv)) as [-> _]. done.
Qed.

Lemma wire_pair_truthy (kv : string * string) : Str.truthy (wire_pair kv) = true.
Proof. unfold wire_pair. rewrite !truthy_cat. simpl. by rewrite orb_true_r. Qed.

Lemma parse_wire_pair (kv : string * string) : USP.parse_pair (wire_pair kv) = kv.
Proof.
  unfold USP.parse_pair, wire_pair.
  change ("=" ^^ USP.encode (snd kv)) with (String "=" (USP.encode (snd kv))).
  rewrite cut_cat by apply encode_lacks. rewrite !decode_encode. by destruct kv.
Qed.

Lemma toString_cons (kv : string * string) (l : USP.t) :
  USP.toString (kv :: l) =
    match l with
    | [] => wire_pair kv
    | _ => wire_pair kv ^^ String "&" (USP.toString l)
    end.
Proof. by destruct l. Qed.

(** The pairs are read back from the wire as they were written. *)
Lemma parse_toString (l : USP.t) : USP.parse (USP.toString l) = l.
Proof.
  induction l as [|kv l IH]; [done|].
  rewrite toString_cons. unfold USP.parse in *. destruct l as [|kv' l].
  - rewrite split_lacks by apply wire_pair_lacks. cbn [List.filter].
    rewrite wire_pair_truthy. cbn [List.map]. by rewrite parse_wire_pair.
  - rewrite split_cat by apply wire_pair_lacks. cbn [List.filter].
    rewrite wire_pair_truthy. cbn [List.map]. by rewrite parse_wire_pair, IH.
Qed.

(** The wire text is empty exactly when there is no pair. *)
Lemma toString_truthy (l : USP.t) :
  Str.truthy (USP.toString l) = match l with [] => false | _ => true end.
Proof.
  destruct l as [|kv l]; [done|]. rewrite toString_cons.
  destruct l; [apply wire_pair_truthy|]. by rewrite truthy_cat, wire_pair_truthy.
Qed.

End WireRules.

Section QueryRules.
Context {number : Type} `{JsNumber number}.

Lemma set_unused (name value : string) (l : USP.t) :
  name ∉ List.map fst l -> USP.set name value l = l ++ [(name, value)].
Proof.
  induction l as [|[k v] l IH]; simpl; [done|].
  intros Hnot. apply not_elem_of_cons in Hnot as [Hne Hl].
  destruct (String.eqb_spec k name) as [->|_]; [done|]. by rewrite IH.
Qed.

Lemma each_element_fold (key : string) (vs : list (QueryPrimitive number))
  (h : QHeap number) :
  fold_left (each_element key) vs h =
    mkQHeap (heap_params h)
      (heap_usp h ++ List.map (fun p => (key, q_string p))
                       (List.filter (fun p => negb (q_nullish p)) vs)).
Proof.
  revert h. induction vs as [|v vs IH]; intros h; simpl.
  - rewrite app_nil_r. by destruct h.
  - rewrite IH. unfold each_element. destruct (q_nullish v); simpl; [done|].
    unfold USP.append. by rewrite <- app_assoc.
Qed.

Lemma each_entry_heap (kv : string * QueryValue number) (h : QHeap number) :
  fst kv ∉ List.map fst (heap_usp h) ->
  each_entry h kv = mkQHeap (heap_params h) (heap_usp h ++ entry_pairs kv).
Proof.
  destruct kv as [key [p|vs]]; simpl; intros Hnot.
  - destruct (q_nullish p).
    + rewrite app_nil_r. by destruct h.
    + unfold usp_set. by rewrite set_unused.
  - apply each_element_fold.
Qed.

Lemma entry_pairs_names (kv : string * QueryValue number) (name value : string) :
  (name, value) ∈ entry_pairs kv -> name = fst kv.
Proof.
  destruct kv as [key [p|vs]]; simpl.
  - destruct (q_nullish p); [by intros ?%not_elem_of_nil|].
    intros Hin%list_elem_of_singleton. by injection Hin.
  - intros Hin%list_elem_of_In. apply List.in_map_iff in Hin as (p & Heq & _).
    by injection Heq.
Qed.

Lemma query_pairs_names (params : QueryParams number) (name value : string) :
  (name, value) ∈ query_pairs params ->
  exists kv, kv ∈ params /\ (name, value) ∈ entry_pairs kv /\ name = fst kv.
Proof.
  unfold query_pairs. intros Hin%list_elem_of_In.
  apply List.in_flat_map in Hin as (kv & Hkv & Hin).
  apply list_elem_of_In in Hkv, Hin.
  exists kv. eauto using entry_pairs_names.
Qed.

Lemma each_entry_fold (entries : QueryParams number) :
  forall h,
    NoDup (List.map fst entries) ->
    (forall name, name ∈ List.map fst entries -> name ∉ List.map fst (heap_usp h)) ->
    fold_left each_entry entries h =
      mkQHeap (heap_params h) (heap_usp h ++ query_pairs entries).
Proof.
  induction entries as [|kv entries IH]; intros h Hnodup Hfresh; simpl.
  - rewrite app_nil_r. by destruct h.
  - apply NoDup_cons in Hnodup as [Hkv Hnodup].
    rewrite each_entry_heap by (apply Hfresh; simpl; left).
    rewrite IH; simpl; [by rewrite <- app_assoc|done|].
    intros name Hname. rewrite List.map_app. intros Hin%elem_of_app.
    destruct Hin as [Hin|Hin].
    + by apply (Hfresh name); [simpl; right|].
    + apply list_elem_of_In, List.in_map_iff in Hin as ([n v] & Heq & Hin).
      simpl in Heq. subst n. apply list_elem_of_In, entry_pairs_names in Hin.
      simpl in Hin. by subst name.
Qed.

Lemma distinct_keys (entries : QueryParams number) (key : string)
  (a b : QueryValue number) :
  NoDup (List.map fst entries) -> (key, a) ∈ entries -> (key, b) ∈ entries -> a = b.
Proof.
  induction entries as [|[k v] entries IH]; simpl; intros Hnodup Ha Hb.
  - by apply not_elem_of_nil in Ha.
  - apply NoDup_cons in Hnodup as [Hk Hnodup].
    assert (forall x, (k, x) ∈ entries -> False) as Habsurd.
    { intros x Hx. apply Hk, list_elem_of_In, List.in_map_iff.
      exists (k, x). by rewrite <- list_elem_of_In. }
    apply elem_of_cons in Ha as [Ha|Ha], Hb as [Hb|Hb].
    + congruence.
    + injection Ha as -> ->. by destruct (Habsurd b).
    + injection Hb as -> ->. by destruct (Habsurd a).
    + by apply IH.
Qed.

End QueryRules.

Section SerializerRules.
Context {number : Type} `{JsNumber number}.
Local Abbreviation JsVal := (JsVal number).
Local Abbreviation RequestBody := (RequestBody number).

(** Induction on a body value, through its arrays and objects. *)
Lemma JsVal_nested_ind (P : JsVal -> Prop) :
  P VUndefined -> P VNull -> (forall b, P (VBool b)) -> (forall n, P (VNum n)) ->
  (forall s, P (VStr s)) ->
  (forall items, Forall P items -> P (VArr items)) ->
  (forall props, Forall (fun kv => P (snd kv)) props -> P (VObj props)) ->
  (forall d, P (VDate d)) -> (forall b, P (VBlob b)) -> (forall f, P (VFile f)) ->
  forall v, P v.
Proof.
  intros Hu Hn Hb Hnum Hs Harr Hobj Hd Hbl Hf.
  fix IH 1.
  intros [| | b | n | s | items | props | d | b | f];
    [exact Hu | exact Hn | apply Hb | apply Hnum | apply Hs | | | apply Hd | apply Hbl | apply Hf].
  - apply Harr.
    refine ((fix each (l : list JsVal) : Forall P l :=
               match l with
               | [] => List.Forall_nil _
               | x :: r => @List.Forall_cons _ P x r (IH x) (each r)
               end) items).
  - apply Hobj.
    refine ((fix each (l : list (string * JsVal)) : Forall (fun kv => P (snd kv)) l :=
               match l with
               | [] => List.Forall_nil _
               | kv :: r => @List.Forall_cons _ _ kv r (IH (snd kv)) (each r)
               end) props).
Qed.









End SerializerRules.

(** * The client's guarantees *)

Section Guarantees.
Context {number : Type} `{JsNumber number}.
Local Abbreviation Json := (Json number).
Local Abbreviation JsVal := (JsVal number).
Local Abbreviation RequestBody := (RequestBody number).
Local Abbreviation Response := (Response number).
Local Abbreviation Env := (Env number).
Local Abbreviation ApiResponse := (ApiResponse number).


(** C6. A response with status 204 yields the envelope
    [{ success: true, data: {}, message: "No Content" }] whatever its body
    holds, and the call reads the body neither as JSON nor as text. *)
Theorem no_content_envelope (env : Env) (api : Api) (path : string)
  (method : HttpMethod) (body : RequestBody) (init : RequestInit)
  (res : Response) (w : World) :
  delivers env api path method body init res ->
  res_status res = 204 ->
  exists w' evs,
    request env api path method body init w
    = (Normal (mkApiResponse true (Some (JObj [])) (Some (JStr "No Content")) None), w')
    /\ w_trace w' = w_trace w ++ evs
    /\ Forall (fun e => is_body_read e = false) evs.
Proof.
  intros Hdel Hstatus.
  destruct (request_delivered env api path method body init res
              (fun a evs => a = mkApiResponse true (Some (JObj [])) (Some (JStr "No Content")) None
                            /\ evs = []) Hdel) with (w := w)
    as (a & w' & evs & Hrun & [-> ->] & _ & before & call & after & Htrace & Hquiet).
  - unfold normalize. rewrite Hstatus. simpl. apply steps_ret. eauto.
  - exists w', (before ++ EvFetch call :: after). split; [done|]. split; [done|].
    apply Forall_app in Hquiet as [Hb Ha]. apply Forall_app. split.
    + eapply Forall_impl; [exact Hb|]. by intros [].
    + constructor; [done|]. eapply Forall_impl; [exact Ha|]. by intros [].
Qed.

(** C9. A timer is scheduled only when the effective timeout (the call's
    own, else the client's default) is strictly positive; when one is
    scheduled, the call ends by clearing it, whatever happened in between,
    and the set of scheduled timers is after the call what it was before.
    The call itself always completes normally. *)
Theorem timer_is_released (env : Env) (api : Api) (path : string)
  (method : HttpMethod) (body : RequestBody) (init : RequestInit) (w : World) :
  exists r w' between,
    request env api path method body init w = (Normal r, w')
    /\ w_timers w' = w_timers w
    /\ Forall (fun e => is_timer_event e = false) between
    /\ if Z.ltb 0 (effective_timeout api init)
       then exists id,
              (id ∉ w_timers w)
              /\ w_trace w' = w_trace w
                   ++ (EvSetTimeout id (effective_timeout api init) :: between)
                   ++ [EvClearTimeout id]
       else w_trace w' = w_trace w ++ between.
Proof.
  destruct (request_trace env api path method body init w)
    as (r & n & evs & Hrun & _ & Hevs).
  eexists r, _, (repeat EvListen n ++ evs). split; [exact Hrun|]. simpl.
  split; [done|]. split.
  - apply Forall_app. split.
    + apply List.Forall_forall. intros e He. apply repeat_spec in He. by subst.
    + eapply Forall_impl; [exact Hevs|]. intros [] He; done.
  - unfold timer_set, timer_cleared, timer_wanted.
    destruct (Z.ltb_spec 0 (effective_timeout api init)) as [Hpos|Hneg].
    + replace (Z.eqb (effective_timeout api init) 0) with false
        by (symmetry; apply Z.eqb_neq; lia).
      simpl. exists (fresh (w_timers w)). split; [apply is_fresh|].
      by rewrite <- !app_assoc.
    + rewrite andb_false_r. simpl. by rewrite app_nil_r.
Qed.

(** C5. A call whose body serializes makes its [fetch], and the headers
    of every [fetch] a call makes are built in the fixed order mode
    defaults, then the caller's headers, then the forced directive:
    [Cache-Control] is ["no-store, max-age=0"] whatever the caller
    supplied, and any other header is the caller's where the caller gives
    one and the mode-derived base header otherwise. *)
Theorem forced_no_cache_is_last (env : Env) (api : Api) (path : string)
  (method : HttpMethod) (body : RequestBody) (init : RequestInit) (w : World) :
  exists r w' evs,
    request env api path method body init w = (Normal r, w')
    /\ w_trace w' = w_trace w ++ evs
    /\ (forall payload,
          serializeBody (mode api) body = Normal payload ->
          EvFetch (fetch_call api path method payload init) ∈ evs)
    /\ forall call,
         EvFetch call ∈ evs ->
         call_headers call !! "Cache-Control" = Some "no-store, max-age=0"
         /\ forall k, k <> "Cache-Control" ->
              call_headers call !! k =
                match init_headers init with
                | Some h => match h !! k with
                            | Some v => Some v
                            | None => buildHeaders (mode api) (init_token init) !! k
                            end
                | None => buildHeaders (mode api) (init_token init) !! k
                end.
Proof.
  destruct (request_trace env api path method body init w)
    as (r & n & evs & Hrun & _ & Hevs).
  eexists r, _, _. split; [exact Hrun|]. split; [reflexivity|]. split.
  - intros payload Hser.
    destruct (request_run env api path method body init _
                (attempt_fetches env api path method body init _ payload Hser) w)
      as (r' & evs' & n' & [rest ->] & Hrun').
    rewrite Hrun in Hrun'. injection Hrun' as _ Htrace.
    apply app_inv_head in Htrace. simpl. rewrite Htrace.
    rewrite !elem_of_app. right. right. apply elem_of_cons. by left.
  - intros call Hin. apply fetch_only_in_try in Hin.
    rewrite Forall_forall in Hevs. destruct (Hevs _ Hin) as [payload ->].
    unfold fetch_call; simpl. split.
    + apply final_headers_cache.
    + intros k Hk. by apply final_headers_other.
Qed.

(** C2, as amended. For a failing response that is not a 204 the envelope
    carries [{ status, message, detail }] under [error] and the same
    message at the top level, where the message follows this precedence
    over the parsed payload: (1) the payload is an object with a [detail]
    field: for an array, the elements' messages joined with ["; "] (a
    string element as it is; another element by its [msg] field when that
    field is there and truthy, else by its JSON form); for a string, the
    string; for an object, its [msg] field when there and truthy, else its
    JSON form; for [null], ["null"]; for a number or a boolean, the status
    phrase; (2) else the payload is an object with a [message] field: its
    string form; (3) else the payload is text: its first 300 units at
    most, exactly 300 when the text is longer; (4) else the status phrase,
    or ["Request failed"] when it is empty. The payload
    [{ detail: [{ msg: "bad field" }, "other"] }] gives
    ["bad field; other"]. *)
Theorem error_message_precedence (env : Env) (api : Api) (path : string)
  (method : HttpMethod) (body : RequestBody) (init : RequestInit)
  (res : Response) (parsed : Json) (w0 w0' w : World) :
  delivers env api path method body init res ->
  res_status res <> 204 ->
  res_ok res = false ->
  parse_body res w0 = (Normal parsed, w0') ->
  (exists w',
     request env api path method body init w
     = (Normal
          (mkApiResponse false None
             (Some (precedence_message (res_statusText res) parsed))
             (Some (mkApiError (res_status res)
                      (precedence_message (res_statusText res) parsed)
                      (field "detail" parsed)))), w'))
  /\ (forall text,
        parsed = JStr text -> (300 < String.length text)%nat ->
        exists m, precedence_message (res_statusText res) parsed = JStr m
                  /\ String.length m = 300%nat)
  /\ precedence_message (res_statusText res)
       (JObj [("detail", JArr [JObj [("msg", JStr "bad field")]; JStr "other"])])
     = JStr "bad field; other".
Proof.
  intros Hdel Hstatus Hok Hparse. split; [|split].
  - destruct (request_delivered env api path method body init res
                (fun a _ => a = failure (res_status res)
                                  (fst (extract_error (res_statusText res) parsed))
                                  (snd (extract_error (res_statusText res) parsed)))
                Hdel) with (w := w) as (a & w' & evs & Hrun & -> & _).
    + eapply steps_weaken; [exact (normalize_failing res parsed w0 w0' Hstatus Hok Hparse)|].
      intros r evs (a & -> & ->). eauto.
    + exists w'. rewrite Hrun. unfold failure.
      by rewrite extract_error_message, extract_error_detail.
  - intros text -> Hlen. simpl. eexists; split; [reflexivity|].
    rewrite slice0_length. lia.
  - reflexivity.
Qed.

(** C10. When the parsed payload of a failing response is an object whose
    [detail] field is [null], the [detail] branch applies ([typeof null]
    is ["object"]) and the message is ["null"], the JSON form of [null],
    whatever [message] field the payload has and whatever the status
    phrase is. *)
Theorem null_detail_message (env : Env) (api : Api) (path : string)
  (method : HttpMethod) (body : RequestBody) (init : RequestInit)
  (res : Response) (props : list (string * Json)) (w0 w0' w : World) :
  delivers env api path method body init res ->
  res_status res <> 204 ->
  res_ok res = false ->
  parse_body res w0 = (Normal (JObj props), w0') ->
  Json.assoc "detail" props = Some JNull ->
  Json.typeof (@JNull number) = TyObject
  /\ String.length "null" = 4%nat
  /\ exists w',
       request env api path method body init w
       = (Normal
            (mkApiResponse false None (Some (JStr "null"))
               (Some (mkApiError (res_status res) (JStr "null") (Some JNull)))), w').
Proof.
  intros Hdel Hstatus Hok Hparse Hdetail. split; [done|]. split; [done|].
  destruct (request_delivered env api path method body init res
              (fun a _ => a = failure (res_status res)
                                (fst (extract_error (res_statusText res) (JObj props)))
                                (snd (extract_error (res_statusText res) (JObj props))))
              Hdel) with (w := w) as (a & w' & evs & Hrun & -> & _).
  - eapply steps_weaken; [exact (normalize_failing res _ w0 w0' Hstatus Hok Hparse)|].
    intros r evs (a & -> & ->). eauto.
  - exists w'. rewrite Hrun. unfold failure, extract_error, Json.get.
    by rewrite Hdetail.
Qed.



(** C4. For a mapping with distinct keys, the pairs of the query string
    are, entry by entry in order: nothing for a key whose value is [null]
    or [undefined], one pair [key=value] for another scalar, and for an
    array one pair under the very same key for each element that is
    neither [null] nor [undefined]. A key with a nullish value names no
    pair, and every pair is named by a key of the mapping. The result is
    the empty string when there is no pair and ["?"] followed by the wire
    form of the pairs otherwise; with no mapping it is the empty string.
    The mapping is after the call what it was before. *)
Theorem query_encoding (params : QueryParams number) :
  NoDup (List.map fst params) ->
  heap_usp (snd (buildQueryString_run params)) = query_pairs params
  /\ heap_params (snd (buildQueryString_run params)) = params
  /\ buildQueryString (Some params)
     = match query_pairs params with
       | [] => ""
       | pairs => String "?" (USP.toString pairs)
       end
  /\ buildQueryString (@None (QueryParams number)) = ""
  /\ (forall key p,
        (key, QOne p) ∈ params -> q_nullish p = true ->
        key ∉ List.map fst (query_pairs params))
  /\ (forall name value,
        (name, value) ∈ query_pairs params -> name ∈ List.map fst params)
  /\ USP.parse (USP.toString (query_pairs params)) = query_pairs params.
Proof.
  intros Hnodup.
  assert (snd (buildQueryString_run params) = mkQHeap params (query_pairs params)) as Hrun.
  { unfold buildQueryString_run. simpl.
    rewrite each_entry_fold; [done|done|]. simpl. intros name _. apply not_elem_of_nil. }
  repeat split.
  - by rewrite Hrun.
  - by rewrite Hrun.
  - unfold buildQueryString, buildQueryString_run in *. simpl in *. rewrite Hrun. simpl.
    rewrite toString_truthy. by destruct (query_pairs params).
  - intros key p Hin Hnull Hname.
    apply list_elem_of_In, List.in_map_iff in Hname as ([name value] & Heq & Hpair).
    simpl in Heq. subst name. apply list_elem_of_In, query_pairs_names in Hpair
      as ([k v] & Hkv & Hpair & Hk).
    simpl in Hk. subst k.
    rewrite (distinct_keys params key v (QOne p) Hnodup Hkv Hin) in Hpair.
    simpl in Hpair. rewrite Hnull in Hpair. by apply not_elem_of_nil in Hpair.
  - intros name value Hpair. apply query_pairs_names in Hpair as (kv & Hkv & _ & ->).
    apply list_elem_of_In, List.in_map, list_elem_of_In. done.
  - apply parse_toString.
Qed.


End Guarantees.

(** * The guarantees on concrete calls *)

Section ConcreteCalls.
Import Scenario.

(** A login refused with a validation error: the message joins the
    elements of [detail]. *)
Lemma error_message_precedence_login :
  exists w',
    post (answering (Normal (respond 422 "Unprocessable Entity" false validation_error)))
      (apiJson origin) "/login" credentials None start
    = (Normal
         (mkApiResponse false None (Some (JStr "bad field; other"))
            (Some (mkApiError 422 (JStr "bad field; other")
                     (Some (JArr [JObj [("msg", JStr "bad field")]; JStr "other"]))))),
       w').
Proof.
  refine (proj1 (error_message_precedence
                   (answering (Normal (respond 422 "Unprocessable Entity" false
                                         validation_error)))
                   (apiJson origin) "/login" POST credentials (only_token None)
                   (respond 422 "Unprocessable Entity" false validation_error)
                   validation_error start (mkWorld ∅ [EvReadJson]) start _ _ _ _)).
  - eexists. split; [reflexivity|]. split; reflexivity.
  - discriminate.
  - reflexivity.
  - reflexivity.
Defined.

(** C2 in the specification's own wording ("its [msg] field if present")
    does not hold: a [detail] object whose [msg] field is there but empty
    does not give that field as the message; the message is the JSON form
    of the object. *)
Lemma empty_msg_is_not_the_message :
  field "msg" empty_msg_detail = Some (JStr "")
  /\ fst (post (answering (Normal (respond 422 "Unprocessable Entity" false
                                     (JObj [("detail", empty_msg_detail)]))))
            (apiJson origin) "/login" credentials None start)
     = Normal
         (mkApiResponse false None (Some (JStr (Json.stringify empty_msg_detail)))
            (Some (mkApiError 422 (JStr (Json.stringify empty_msg_detail))
                     (Some empty_msg_detail))))
  /\ String.length (Json.stringify empty_msg_detail) = 10%nat
  /\ JStr (Json.stringify empty_msg_detail) <> @JStr Z "".
Proof. repeat split; try reflexivity. discriminate. Qed.


(** A query with a nullish scalar and an array with nullish elements. *)
Lemma query_encoding_example :
  buildQueryString
    (Some [("page", QOne (QNum 2)); ("q", QOne QNull);
           ("tag", QMany [QStr "a b"; QUndefined; QStr "c"]); ("draft", QOne (QBool false))])
  = "?page=2&tag=a+b&tag=c&draft=false"
  /\ heap_params
       (snd (buildQueryString_run
               [("page", QOne (QNum 2)); ("q", QOne QNull);
                ("tag", QMany [QStr "a b"; QUndefined; QStr "c"]);
                ("draft", QOne (QBool false))]))
     = [("page", QOne (QNum 2)); ("q", QOne QNull);
        ("tag", QMany [QStr "a b"; QUndefined; QStr "c"]); ("draft", QOne (QBool false))].
Proof.
  assert (NoDup (List.map fst
                   [("page", QOne (QNum 2)); ("q", QOne (@QNull Z));
                    ("tag", QMany [QStr "a b"; QUndefined; QStr "c"]);
                    ("draft", QOne (QBool false))])) as Hnodup.
  { apply (bool_decide_unpack _). by vm_compute. }
  pose proof (query_encoding _ Hnodup) as (_ & Hsame & Hqs & _).
  split; [exact Hqs|exact Hsame].
Defined.

(** A logout answered with 204 and a body that is no JSON. *)
Lemma no_content_envelope_logout :
  exists w' evs,
    request
      (answering (Normal (mkResponse 204 "No Content" true (Some "application/json")
                            (Throw (mkError "SyntaxError" "Unexpected end of JSON input"))
                            (Normal "ignored"))))
      (apiJson origin) "/session" DELETE (BodyVal VUndefined) (only_token (Some "t0k3n"))
      start
    = (Normal (mkApiResponse true (Some (JObj [])) (Some (JStr "No Content")) None), w')
    /\ w_trace w' = w_trace start ++ evs
    /\ Forall (fun e => is_body_read e = false) evs.
Proof.
  apply (no_content_envelope (number := Z)) with
    (res := mkResponse 204 "No Content" true (Some "application/json")
              (Throw (mkError "SyntaxError" "Unexpected end of JSON input"))
              (Normal "ignored")).
  - eexists. split; [reflexivity|]. split; reflexivity.
  - reflexivity.
Defined.




(** A failing response whose [detail] is [null], beside a [message]. *)
Lemma null_detail_message_example :
  exists w',
    post (answering (Normal (respond 422 "Unprocessable Entity" false null_detail)))
      (apiJson origin) "/login" credentials None start
    = (Normal (mkApiResponse false None (Some (JStr "null"))
                 (Some (mkApiError 422 (JStr "null") (Some JNull)))), w').
Proof.
  refine (proj2 (proj2 (null_detail_message
                   (answering (Normal (respond 422 "Unprocessable Entity" false null_detail)))
                   (apiJson origin) "/login" POST credentials (only_token None)
                   (respond 422 "Unprocessable Entity" false null_detail)
                   [("detail", JNull); ("message", JStr "Unprocessable")]
                   start (mkWorld ∅ [EvReadJson]) start _ _ _ _ _))).
  - eexists. split; [reflexivity|]. split; reflexivity.
  - discriminate.
  - reflexivity.
  - reflexivity.
  - reflexivity.
Defined.

End ConcreteCalls.

(** * Further properties of the client *)

Section ClientFacts.
Context {number : Type} `{JsNumber number}.
Local Abbreviation Json := (Json number).
Local Abbreviation JsVal := (JsVal number).
Local Abbreviation RequestBody := (RequestBody number).
Local Abbreviation Response := (Response number).
Local Abbreviation Env := (Env number).
Local Abbreviation ApiResponse := (ApiResponse number).

Lemma parse_body_run (res : Response) (w : World) :
  parse_body res w
  = (Normal (parsed_of res), mkWorld (w_timers w) (w_trace w ++ [body_read_of res])).
Proof.
  unfold parse_body, parsed_of, body_read_of, try_catch, read_json, read_text,
    bind, emit, lift, ret.
  destruct (Str.includes _ _).
  - by destruct (res_json res).
  - by destruct (res_text res).
Qed.

(** What [normalize] does to a response that is not a 204. *)
Lemma normalize_run (res : Response) (w : World) :
  res_status res <> 204 ->
  normalize res w =
    if res_ok res then
      (Normal (mkApiResponse true (Some (parsed_of res))
                 (Some (or_else (Json.get_opt "message" (parsed_of res)) (JStr "OK"))) None),
       mkWorld (w_timers w) (w_trace w ++ [body_read_of res]))
    else
      (Normal (failure (res_status res)
                 (fst (extract_error (res_statusText res) (parsed_of res)))
                 (snd (extract_error (res_statusText res) (parsed_of res)))),
       mkWorld (w_timers w) (w_trace w ++ [body_read_of res; EvConsoleError])).
Proof.
  intros Hstatus. apply Z.eqb_neq in Hstatus. unfold normalize. rewrite Hstatus.
  unfold bind at 1. rewrite parse_body_run. destruct (res_ok res); simpl.
  - reflexivity.
  - unfold bind, emit, ret. simpl. destruct (extract_error _ _). simpl.
    by rewrite <- app_assoc.
Qed.

(** The shape of the [try] block with its [catch]. *)
Lemma try_block_shape (env : Env) api path method (body : RequestBody) init c :
  steps (try_catch (attempt env api path method body init c) on_throw)
    (fun r evs =>
       match serializeBody (mode api) body with
       | Throw e =>
           evs = [] /\ r = Normal (failure 0 (JStr (catch_text e)) None)
       | Normal payload =>
           exists rest,
             evs = EvFetch (fetch_call api path method payload init) :: rest
             /\ (rest = [] \/ exists res,
                   env_transport env (fetch_call api path method payload init) = Normal res
                   /\ (rest = [] /\ res_status res = 204
                       \/ rest = [body_read_of res]
                       \/ rest = [body_read_of res; EvConsoleError]))
       end).
Proof.
  intros w. unfold try_catch, attempt. unfold bind at 1. unfold lift at 1.
  destruct (serializeBody (mode api) body) as [payload|e].
  - unfold fetch. unfold bind at 1. unfold bind at 1. unfold emit at 1.
    destruct (ctl_reason _) as [reason|].
    + unfold lift, on_throw, ret. simpl. eexists _, _. split; [reflexivity|].
      exists []. split; [done|]. by left.
    + unfold lift at 1.
      destruct (env_transport env (fetch_call api path method payload init))
        as [res|e] eqn:Hres.
      * destruct (Z.eq_dec (res_status res) 204) as [H204|H204].
        -- unfold normalize. rewrite H204. simpl. unfold ret.
           eexists _, [_]. split; [reflexivity|]. exists []. split; [done|].
           right. exists res. split; [done|]. by left.
        -- rewrite (normalize_run res _ H204). destruct (res_ok res); simpl.
           ++ eexists _, [_; _]. rewrite <- app_assoc. split; [reflexivity|].
              eexists. split; [reflexivity|]. right. exists res. split; [done|].
              right. by left.
           ++ eexists _, [_; _; _]. rewrite <- app_assoc. split; [reflexivity|].
              eexists. split; [reflexivity|]. right. exists res. split; [done|].
              right. by right.
      * unfold on_throw, ret. simpl. eexists _, _. split; [reflexivity|].
        exists []. split; [done|]. by left.
  - unfold on_throw, ret, catch_text, failure_text. simpl.
    eexists _, []. rewrite app_nil_r. split; [by destruct w|]. done.
Qed.

Lemma filter_timer_set (f : Event -> bool) t id :
  (forall i ms, f (EvSetTimeout i ms) = false) -> List.filter f (timer_set t id) = [].
Proof. intros Hf. unfold timer_set. destruct (timer_wanted t); simpl; by rewrite ?Hf. Qed.

Lemma filter_timer_cleared (f : Event -> bool) t id :
  (forall i, f (EvClearTimeout i) = false) -> List.filter f (timer_cleared t id) = [].
Proof. intros Hf. unfold timer_cleared. destruct (timer_wanted t); simpl; by rewrite ?Hf. Qed.

Lemma filter_listens (f : Event -> bool) n :
  f EvListen = false -> List.filter f (repeat EvListen n) = [].
Proof. intros Hf. induction n as [|n IH]; simpl; [done|]. by rewrite Hf. Qed.

(** Only the [try] block of a call fetches or reads a body. *)
Lemma filter_call_events (f : Event -> bool) t id n evs :
  (forall i ms, f (EvSetTimeout i ms) = false) ->
  (forall i, f (EvClearTimeout i) = false) ->
  f EvListen = false ->
  List.filter f (timer_set t id ++ repeat EvListen n ++ evs ++ timer_cleared t id)
  = List.filter f evs.
Proof.
  intros Hs Hc Hl. rewrite !List.filter_app.
  rewrite filter_timer_set, filter_timer_cleared, filter_listens by done.
  by rewrite app_nil_r.
Qed.

End ClientFacts.

Section ClientCalls.
Context {number : Type} `{JsNumber number}.
Local Abbreviation Json := (Json number).
Local Abbreviation JsVal := (JsVal number).
Local Abbreviation RequestBody := (RequestBody number).
Local Abbreviation Response := (Response number).
Local Abbreviation Env := (Env number).
Local Abbreviation ApiResponse := (ApiResponse number).

Lemma message_or_ok (parsed : Json) :
  or_else (Json.get_opt "message" parsed) (JStr "OK")
  = match field "message" parsed with
    | Some m => if Json.truthy m then m else JStr "OK"
    | None => JStr "OK"
    end.
Proof.
  unfold or_else, Json.get_opt, Json.get, field. destruct parsed; try done.
  simpl. by rewrite at_index_word by (apply Nat.ltb_lt; reflexivity).
Qed.

(** A call that is answered, seen from outside: the envelope and the trace
    that [normalize] gives, between the timer's events. *)
Lemma request_answered (env : Env) api path method (body : RequestBody) init res w :
  delivers env api path method body init res ->
  res_status res <> 204 ->
  exists w' before call after,
    request env api path method body init w
    = (fst (normalize res w), w')
    /\ w_trace w' = w_trace w ++ before ++ EvFetch call
                      :: (body_read_of res :: if res_ok res then [] else [EvConsoleError])
                      ++ after
    /\ Forall (fun e => reply_event e = false) (before ++ after).
Proof.
  intros Hdel Hstatus.
  destruct (request_delivered env api path method body init res
              (fun a evs => Normal a = fst (normalize res w)
                            /\ evs = body_read_of res
                                       :: if res_ok res then [] else [EvConsoleError])
              Hdel) with (w := w)
    as (a & w' & evs & Hrun & [Ha ->] & _ & before & call & after & Htrace & Hquiet).
  - intros w1. rewrite (normalize_run res w1 Hstatus), (normalize_run res w Hstatus).
    destruct (res_ok res); eexists _, _; (split; [reflexivity|]); eexists; simpl; eauto.
  - exists w', before, call, after. rewrite Hrun, Ha. auto.
Qed.

(** X1. A response with a success status other than 204 gives a success
    envelope whose data is the parsed body ([null] when reading the body
    throws) and whose message is the payload's [message] field when that
    field is truthy, ["OK"] otherwise. *)
Theorem ok_response_envelope (env : Env) (api : Api) (path : string)
  (method : HttpMethod) (body : RequestBody) (init : RequestInit)
  (res : Response) (w : World) :
  delivers env api path method body init res ->
  res_status res <> 204 ->
  res_ok res = true ->
  exists w',
    request env api path method body init w
    = (Normal
         (mkApiResponse true (Some (parsed_of res))
            (Some (match field "message" (parsed_of res) with
                   | Some m => if Json.truthy m then m else JStr "OK"
                   | None => JStr "OK"
                   end)) None), w').
Proof.
  intros Hdel Hstatus Hok.
  destruct (request_answered env api path method body init res w Hdel Hstatus)
    as (w' & _ & _ & _ & Hrun & _).
  exists w'. rewrite Hrun, (normalize_run res w Hstatus), Hok. simpl.
  by rewrite message_or_ok.
Qed.

(** X2. A call answered by a response that is not a 204 reads the body
    exactly once: as JSON when the content type, lowercased, contains
    ["application/json"], as text otherwise (also when there is no content
    type). *)
Theorem body_is_read_once (env : Env) (api : Api) (path : string)
  (method : HttpMethod) (body : RequestBody) (init : RequestInit)
  (res : Response) (w : World) :
  delivers env api path method body init res ->
  res_status res <> 204 ->
  exists r w' evs,
    request env api path method body init w = (r, w')
    /\ w_trace w' = w_trace w ++ evs
    /\ List.filter is_body_read evs
       = [if Str.includes "application/json"
               (Str.toLowerCase (match res_content_type res with
                                 | Some s => s
                                 | None => ""
                                 end))
          then EvReadJson else EvReadText].
Proof.
  intros Hdel Hstatus.
  destruct (request_answered env api path method body init res w Hdel Hstatus)
    as (w' & before & call & after & Hrun & Htrace & Hquiet).
  eexists _, w', _. split; [exact Hrun|]. split; [exact Htrace|].
  apply Forall_app in Hquiet as [Hb Ha].
  assert (forall l, Forall (fun e => reply_event e = false) l ->
                    List.filter is_body_read l = []) as Hnone.
  { induction 1 as [|e l He _ IH]; [done|]. simpl. rewrite IH.
    destruct e; simpl in *; done. }
  rewrite List.filter_app, (Hnone _ Hb). simpl.
  rewrite List.filter_app, (Hnone _ Ha), app_nil_r.
  unfold body_read_of. destruct (Str.includes _ _), (res_ok res); reflexivity.
Qed.

(** What a call is when its [try] block is known to end in a throw the
    [catch] clause turns into an envelope. *)
Lemma request_thrown (env : Env) api path method (body : RequestBody) init e evs0 :
  (forall w,
     attempt env api path method body init
       (compose (env_abort_text env) (effective_timeout api init) (signals_of init)) w
     = (Throw e, mkWorld (w_timers w) (w_trace w ++ evs0))) ->
  forall w, exists w' evs,
    request env api path method body init w
    = (Normal (failure 0 (JStr (catch_text e)) None), w')
    /\ w_timers w' = w_timers w
    /\ w_trace w' = w_trace w ++ evs
    /\ List.filter is_fetch evs = List.filter is_fetch evs0.
Proof.
  intros Hattempt w.
  assert (steps (try_catch
                   (attempt env api path method body init
                      (compose (env_abort_text env) (effective_timeout api init)
                         (signals_of init)))
                   on_throw)
            (fun r evs => r = Normal (failure 0 (JStr (catch_text e)) None) /\ evs = evs0))
    as Hsteps.
  { intros w1. unfold try_catch. rewrite Hattempt. unfold on_throw, ret.
    eexists _, _. split; [reflexivity|]. done. }
  destruct (request_run env api path method body init _ Hsteps w)
    as (r & evs & n & [-> ->] & Hrun).
  eexists _, _. split; [exact Hrun|]. split; [done|]. split; [reflexivity|].
  by apply filter_call_events.
Qed.

(** X3. When the body serializes, nothing cancels the call and the
    transport itself fails, the envelope is a failure with status 0 and no
    detail; its message is the error's message, ["Network error"] when
    that message is empty, and ["Request aborted"] when the error is named
    [AbortError]. *)
Theorem transport_failure_envelope (env : Env) (api : Api) (path : string)
  (method : HttpMethod) (body : RequestBody) (init : RequestInit)
  (payload : option BodyInit) (e : JsError) (w : World) :
  serializeBody (mode api) body = Normal payload ->
  cancellation env api init = None ->
  env_transport env (fetch_call api path method payload init) = Throw e ->
  exists w' m,
    request env api path method body init w
    = (Normal (mkApiResponse false None (Some (JStr m))
                 (Some (mkApiError 0 (JStr m) None))), w')
    /\ m = (if String.eqb (err_name e) "AbortError" then "Request aborted"
            else if Str.truthy (err_message e) then err_message e
            else "Network error").
Proof.
  intros Hser Hcan Hres.
  destruct (request_thrown env api path method body init e
              [EvFetch (fetch_call api path method payload init)]) with (w := w)
    as (w' & evs & Hrun & _).
  - intros w1. unfold attempt, fetch, cancellation in *.
    rewrite Hser. unfold bind at 1. unfold lift at 1.
    unfold bind at 1. unfold bind at 1. unfold emit at 1.
    rewrite Hcan, Hres. reflexivity.
  - eexists w', _. split; [exact Hrun|]. reflexivity.
Qed.

(** X4. When serializing the body throws, the call makes no [fetch] at
    all: it returns the failure envelope of the thrown error (status 0,
    the error's message) and leaves the scheduled timers as they were. *)
Theorem serialization_failure_envelope (env : Env) (api : Api) (path : string)
  (method : HttpMethod) (body : RequestBody) (init : RequestInit)
  (e : JsError) (w : World) :
  serializeBody (mode api) body = Throw e ->
  exists w' evs,
    request env api path method body init w
    = (Normal (mkApiResponse false None (Some (JStr (catch_text e)))
                 (Some (mkApiError 0 (JStr (catch_text e)) None))), w')
    /\ w_timers w' = w_timers w
    /\ w_trace w' = w_trace w ++ evs
    /\ List.filter is_fetch evs = [].
Proof.
  intros Hser.
  destruct (request_thrown env api path method body init e []) with (w := w)
    as (w' & evs & Hrun & Htimers & Htrace & Hfetch).
  - intros w1. unfold attempt. rewrite Hser. unfold bind, lift.
    by rewrite world_eta.
  - exists w', evs. auto.
Qed.

(** The fetches and the body reads of a call. *)
Lemma call_events (env : Env) (api : Api) (path : string) (method : HttpMethod)
  (body : RequestBody) (init : RequestInit) (w : World) :
  exists r w' evs,
    request env api path method body init w = (Normal r, w')
    /\ w_trace w' = w_trace w ++ evs
    /\ List.filter is_fetch evs
       = match serializeBody (mode api) body with
         | Normal payload => [EvFetch (fetch_call api path method payload init)]
         | Throw _ => []
         end
    /\ (length (List.filter is_body_read evs) <= 1)%nat.
Proof.
  destruct (request_run env api path method body init _
              (steps_and _ _ _
                 (guarded_attempt_steps env api path method body init _)
                 (try_block_shape env api path method body init _)) w)
    as (r & evs & n & [[(a & -> & _) _] Hshape] & Hrun).
  eexists a, _, _. split; [exact Hrun|]. split; [reflexivity|].
  rewrite !filter_call_events by done.
  destruct (serializeBody (mode api) body) as [payload|e].
  - destruct Hshape as (rest & -> & Hrest). simpl.
    destruct Hrest as [-> | (res & _ & [[-> _] | [-> | ->]])]; simpl;
      try (split; [done|lia]).
    + unfold body_read_of. destruct (Str.includes _ _); simpl; split; (done || lia).
    + unfold body_read_of. destruct (Str.includes _ _); simpl; split; (done || lia).
  - destruct Hshape as [-> _]. simpl. split; [done|lia].
Qed.


Lemma no_body_serializes (m : ApiMode) :
  serializeBody m (BodyVal (@VUndefined number)) = Normal None.
Proof. reflexivity. Qed.

(** X6. [get] and [delete] send no body, in any mode: each makes exactly
    one [fetch], with its own method, to the base URL followed by the
    path, which for [get] is followed by the encoded query string. *)
Theorem reads_send_no_body (env : Env) (api : Api) (path : string)
  (params : option (QueryParams number)) (token : option string) (w : World) :
  (exists r w' evs call,
     get env api path params token w = (Normal r, w')
     /\ w_trace w' = w_trace w ++ evs
     /\ List.filter is_fetch evs = [EvFetch call]
     /\ call_method call = GET
     /\ call_url call = baseURL api ^^ path ^^ buildQueryString params
     /\ call_body call = None)
  /\ (exists r w' evs call,
        delete env api path token w = (Normal r, w')
        /\ w_trace w' = w_trace w ++ evs
        /\ List.filter is_fetch evs = [EvFetch call]
        /\ call_method call = DELETE
        /\ call_url call = baseURL api ^^ path
        /\ call_body call = None).
Proof.
  split.
  - unfold get.
    destruct (call_events env api (path ^^ buildQueryString params) GET
                (BodyVal VUndefined) (only_token token) w)
      as (r & w' & evs & Hrun & Htrace & Hfetch & _).
    rewrite no_body_serializes in Hfetch. eexists r, w', evs, _. eauto 10.
  - unfold delete.
    destruct (call_events env api path DELETE (BodyVal VUndefined) (only_token token) w)
      as (r & w' & evs & Hrun & Htrace & Hfetch & _).
    rewrite no_body_serializes in Hfetch. eexists r, w', evs, _. eauto 10.
Qed.

Lemma verb_is_request (env : Env) api (c : VerbCall number) :
  exists path method body,
    invoke env api c = request env api path method body (only_token (verb_token c)).
Proof. destruct c; simpl; eexists _, _, _; reflexivity. Qed.

(** X7. Every [fetch] a verb method makes carries [Accept:
    application/json]; an [Authorization] header, ["Bearer "] followed by
    the token, exactly when a non-empty token is given; and a
    [Content-Type] set by the mode: JSON or form-urlencoded, and none in
    multipart mode. *)
Theorem verb_headers (env : Env) (api : Api) (c : VerbCall number) (w : World) :
  exists r w' evs,
    invoke env api c w = (Normal r, w')
    /\ w_trace w' = w_trace w ++ evs
    /\ forall call,
         EvFetch call ∈ evs ->
         call_headers call !! "Accept" = Some "application/json"
         /\ call_headers call !! "Authorization"
            = match verb_token c with
              | Some t => if Str.truthy t then Some ("Bearer " ^^ t) else None
              | None => None
              end
         /\ call_headers call !! "Content-Type"
            = match mode api with
              | ModeJson => Some "application/json"
              | ModeUrlencoded => Some "application/x-www-form-urlencoded"
              | ModeForm => None
              end.
Proof.
  destruct (verb_is_request env api c) as (path & method & body & ->).
  destruct (request_trace env api path method body (only_token (verb_token c)) w)
    as (r & n & evs & Hrun & _ & Hevs).
  eexists r, _, _. split; [exact Hrun|]. split; [reflexivity|].
  intros call Hin. apply fetch_only_in_try in Hin.
  rewrite Forall_forall in Hevs. destruct (Hevs _ Hin) as [payload ->].
  unfold fetch_call, final_headers, spread_over, buildHeaders, buildBaseHeaders. simpl.
  destruct (verb_token c) as [t|]; [destruct (Str.truthy t)|]; destruct (mode api);
    repeat split;
    repeat first [ rewrite lookup_insert_eq | rewrite lookup_insert_ne by done
                 | rewrite lookup_singleton_eq | rewrite lookup_singleton_ne by done ];
    reflexivity.
Qed.

Lemma append_cons (x : ascii) (a b : string) : String x a ^^ b = String x (a ^^ b).
Proof. reflexivity. Qed.

Lemma append_assoc (a b c : string) : (a ^^ b) ^^ c = a ^^ b ^^ c.
Proof. induction a as [|x a IH]; [done|]. by rewrite !append_cons, IH. Qed.

Lemma append_empty (a : string) : a ^^ "" = a.
Proof. induction a as [|x a IH]; [done|]. by rewrite append_cons, IH. Qed.

Lemma bracket_path_self (key : string) : bracket_path key key.
Proof. exists "". split; [by rewrite append_empty|constructor]. Qed.

Lemma bracket_path_deeper (key segment name : string) :
  bracket_path (key ^^ "[" ^^ segment ^^ "]") name -> bracket_path key name.
Proof.
  intros (rest & -> & Hrest). exists ("[" ^^ segment ^^ "]" ^^ rest). split.
  - by rewrite !append_assoc.
  - by constructor.
Qed.

(** What [appendParam] adds is named by bracket paths from its key. *)
Lemma appendParam_paths (v : JsVal) :
  forall key params params',
    appendParam key v params = Normal params' ->
    exists added,
      params' = params ++ added
      /\ Forall (fun kv => bracket_path key (fst kv)) added.
Proof.
  induction v as [| | b | n | s | items IH | props IH | d | b | f]
    using JsVal_nested_ind; intros key params params' Hrun;
    try (injection Hrun as <-; eexists [_]; split; [reflexivity|];
         repeat constructor; apply bracket_path_self).
  - simpl in Hrun. revert params Hrun.
    induction IH as [|x r Hx _ IHr]; intros params Hrun.
    + injection Hrun as <-. exists []. by rewrite app_nil_r.
    + destruct (appendParam (key ^^ "[]") x params) as [mid|e] eqn:Hmid; [|done].
      simpl in Hrun. apply Hx in Hmid as (a1 & -> & H1).
      apply IHr in Hrun as (a2 & -> & H2).
      exists (a1 ++ a2). split; [by rewrite app_assoc|].
      apply Forall_app. split; [|done].
      eapply Forall_impl; [exact H1|]. intros kv.
      apply (bracket_path_deeper key "").
  - simpl in Hrun. revert params Hrun.
    induction IH as [|[p x] r Hx _ IHr]; intros params Hrun.
    + injection Hrun as <-. exists []. by rewrite app_nil_r.
    + destruct (appendParam (key ^^ "[" ^^ p ^^ "]") x params) as [mid|e] eqn:Hmid;
        [|done].
      simpl in Hrun, Hx. apply Hx in Hmid as (a1 & -> & H1).
      apply IHr in Hrun as (a2 & -> & H2).
      exists (a1 ++ a2). split; [by rewrite app_assoc|].
      apply Forall_app. split; [|done].
      eapply Forall_impl; [exact H1|]. intros kv. apply bracket_path_deeper.
  - destruct d; [|done]. injection Hrun as <-. eexists [_]. split; [reflexivity|].
    repeat constructor. apply bracket_path_self.
  - injection Hrun as <-. exists []. by rewrite app_nil_r.
  - injection Hrun as <-. exists []. by rewrite app_nil_r.
Qed.

(** X8. Every field of a url-encoded body is named after a top-level
    property of the body: its name is that property's name followed by
    bracketed segments only. *)
Theorem fields_are_bracket_paths (body : RequestBody) :
  match urlencoded_fields body with
  | Normal params =>
      Forall (fun kv => exists top,
                top ∈ List.map fst (body_entries body) /\ bracket_path top (fst kv))
        params
  | Throw _ => True
  end.
Proof.
  unfold urlencoded_fields.
  assert (forall entries params params',
            for_entries appendParam entries params = Normal params' ->
            exists added,
              params' = params ++ added
              /\ Forall (fun kv => exists top,
                           top ∈ List.map fst entries /\ bracket_path top (fst kv))
                   added) as Hall.
  { induction entries as [|[k v] r IH]; intros params params' Hrun.
    - injection Hrun as <-. exists []. by rewrite app_nil_r.
    - simpl in Hrun. destruct (appendParam k v params) as [mid|e] eqn:Hmid; [|done].
      simpl in Hrun. apply appendParam_paths in Hmid as (a1 & -> & H1).
      apply IH in Hrun as (a2 & -> & H2).
      exists (a1 ++ a2). split; [by rewrite app_assoc|].
      apply Forall_app. split.
      + eapply Forall_impl; [exact H1|]. intros kv Hkv. exists k. split; [|done].
        simpl. apply elem_of_cons. by left.
      + eapply Forall_impl; [exact H2|]. intros kv (top & Htop & Hkv).
        exists top. split; [|done]. simpl. apply elem_of_cons. by right. }
  destruct (for_entries appendParam (body_entries body) []) as [params|e] eqn:Hrun;
    [|done].
  apply Hall in Hrun as (added & -> & Hadded). exact Hadded.
Qed.





End ClientCalls.

(** ** The further properties on concrete calls *)

Section ClientExamples.
Import Scenario.

(** A login accepted with a token and an empty [message]. *)
Lemma ok_response_envelope_login :
  exists w',
    post (answering (Normal (respond 200 "OK" true
                               (JObj [("access_token", JStr "abc"); ("message", JStr "")]))))
      (apiJson origin) "/login" credentials None start
    = (Normal
         (mkApiResponse true
            (Some (JObj [("access_token", JStr "abc"); ("message", JStr "")]))
            (Some (JStr "OK")) None), w').
Proof.
  refine (ok_response_envelope
            (answering (Normal (respond 200 "OK" true
                                  (JObj [("access_token", JStr "abc");
                                         ("message", JStr "")]))))
            (apiJson origin) "/login" POST credentials (only_token None)
            (respond 200 "OK" true
               (JObj [("access_token", JStr "abc"); ("message", JStr "")]))
            start _ _ _).
  - eexists. split; [reflexivity|]. split; reflexivity.
  - discriminate.
  - reflexivity.
Defined.

(** A plain-text answer is read as text, once. *)
Lemma body_is_read_once_ping :
  exists r w' evs,
    request (answering (Normal (respond_text 200 "OK" true "pong")))
      (apiJson origin) "/ping" GET (BodyVal VUndefined) (only_token None) start
    = (r, w')
    /\ w_trace w' = w_trace start ++ evs
    /\ List.filter is_body_read evs = [EvReadText].
Proof.
  refine (body_is_read_once
            (answering (Normal (respond_text 200 "OK" true "pong")))
            (apiJson origin) "/ping" GET (BodyVal VUndefined) (only_token None)
            (respond_text 200 "OK" true "pong") start _ _).
  - eexists. split; [reflexivity|]. split; reflexivity.
  - discriminate.
Defined.

(** A transport that fails with a message of its own. *)
Lemma transport_failure_envelope_offline :
  exists w' m,
    post (answering (Throw (mkError "TypeError" "fetch failed")))
      (apiJson origin) "/login" credentials None start
    = (Normal (mkApiResponse false None (Some (JStr m))
                 (Some (mkApiError 0 (JStr m) None))), w')
    /\ m = "fetch failed".
Proof.
  refine (transport_failure_envelope
            (answering (Throw (mkError "TypeError" "fetch failed")))
            (apiJson origin) "/login" POST credentials (only_token None)
            _ (mkError "TypeError" "fetch failed") start _ _ _); reflexivity.
Defined.

(** A url-encoded body holding an invalid date. *)
Lemma serialization_failure_envelope_bad_date :
  exists w' evs,
    post (answering (Normal (respond 200 "OK" true (JObj []))))
      (apiUrlEncoded origin) "/search" (BodyVal (VObj [("since", VDate InvalidDate)]))
      None start
    = (Normal (mkApiResponse false None (Some (JStr "Invalid time value"))
                 (Some (mkApiError 0 (JStr "Invalid time value") None))), w')
    /\ w_timers w' = w_timers start
    /\ w_trace w' = w_trace start ++ evs
    /\ List.filter is_fetch evs = [].
Proof.
  refine (serialization_failure_envelope
            (answering (Normal (respond 200 "OK" true (JObj []))))
            (apiUrlEncoded origin) "/search" POST
            (BodyVal (VObj [("since", VDate InvalidDate)])) (only_token None)
            (mkError "RangeError" "Invalid time value") start _).
  reflexivity.
Defined.


End ClientExamples.

(** * Properties of the login feature *)

Section LoginFacts.
Context {number : Type} `{JsNumber number}.
Local Abbreviation Json := (Json number).

Lemma form_params_from (body acc : list (string * string)) :
  fold_left (fun fd kv => USP.append (fst kv) (snd kv) fd) body acc = acc ++ body.
Proof.
  revert acc. induction body as [|kv body IH]; intros acc; simpl.
  - by rewrite app_nil_r.
  - rewrite IH. unfold USP.append. rewrite <- app_assoc. by destruct kv.
Qed.

Lemma form_params_body (body : list (string * string)) : form_params body = body.
Proof. unfold form_params. by rewrite form_params_from. Qed.

Lemma api_url_or_empty (s : string) : (if Str.truthy s then s else "") = s.
Proof. by destruct s. Qed.

Lemma get_message_field (data : Json) : Json.get "message" data = field "message" data.
Proof.
  unfold Json.get, field. destruct data; try done.
  simpl. by rewrite at_index_word by (apply Nat.ltb_lt; reflexivity).
Qed.

(** The one request of [apiFormPost], whatever comes back. *)
Lemma apiFormPost_effects (API_URL : string) (net : FormNet number) (endpoint : string)
  (body : list (string * string)) :
  snd (apiFormPost API_URL net endpoint body)
  = [FxFetch (API_URL ^^ endpoint) POST
       {[ "Content-Type" := "application/x-www-form-urlencoded" ]} (USP.toString body)].
Proof.
  unfold apiFormPost. rewrite api_url_or_empty, form_params_body. cbv zeta.
  destruct (net_fetch net _ _ _ _) as [response|t]; [|done].
  destruct (fr_json response) as [data|t]; [|done].
  destruct (fr_ok response); [done|]. by destruct data.
Qed.

(** The envelope of [apiFormPost], by what the transport does. *)
Lemma apiFormPost_result (API_URL : string) (net : FormNet number) (endpoint : string)
  (body : list (string * string)) :
  fst (apiFormPost API_URL net endpoint body)
  = match net_fetch net (API_URL ^^ endpoint) POST
            {[ "Content-Type" := "application/x-www-form-urlencoded" ]}
            (USP.toString body) with
    | Rejected t => client_catch t
    | Settled response =>
        match fr_json response with
        | Rejected t => client_catch t
        | Settled data =>
            if fr_ok response then mkClientResponse true None (Some data)
            else match data with
                 | JNull => client_catch (ThrownError (mkError "TypeError" (net_null_read net)))
                 | _ => mkClientResponse false
                          (Some (or_else (field "message" data)
                                   (JStr ("HTTP error! status: "
                                          ^^ Str.of_Z (fr_status response)))))
                          None
                 end
        end
    end.
Proof.
  unfold apiFormPost. rewrite api_url_or_empty, form_params_body. cbv zeta.
  destruct (net_fetch net _ _ _ _) as [response|t]; [|done].
  destruct (fr_json response) as [data|t]; [|done].
  destruct (fr_ok response); [done|].
  rewrite <- get_message_field. by destruct data.
Qed.

Lemma issues_get_set (f g : LoginField) (messages : list string) (i : Issues) :
  issues_get f (issues_set g messages i)
  = if same_field g f then Some messages else issues_get f i.
Proof. by destruct f, g, i. Qed.

Lemma collect_get (f : LoginField) (acc : Issues) (e : Issue) :
  issues_get f (collect acc e)
  = match issue_path e with
    | p :: _ =>
        if same_field p f then
          Some (match issues_get f acc with Some l => l | None => [] end
                ++ [issue_message e])
        else issues_get f acc
    | [] => issues_get f acc
    end.
Proof.
  unfold collect. destruct (issue_path e) as [|p ps]; [done|].
  destruct (issues_get p acc) as [l|] eqn:Hp.
  - rewrite Hp, issues_get_set. destruct (same_field p f) eqn:Hpf; [|done].
    assert (p = f) as <- by (by destruct p, f). by rewrite Hp.
  - rewrite !issues_get_set.
    assert (same_field p p = true) as -> by (by destruct p).
    rewrite !issues_get_set. destruct (same_field p f) eqn:Hpf; [|done].
    assert (p = f) as <- by (by destruct p, f). by rewrite Hp.
Qed.

Lemma collect_fold (f : LoginField) (errors : list Issue) (acc : Issues) :
  issues_get f (fold_left collect errors acc)
  = match issues_get f acc, messages_for f errors with
    | Some l, ms => Some (l ++ ms)
    | None, [] => None
    | None, ms => Some ms
    end.
Proof.
  revert acc. induction errors as [|e errors IH]; intros acc.
  - simpl. destruct (issues_get f acc); [by rewrite app_nil_r|done].
  - cbn [fold_left]. rewrite IH, collect_get. unfold messages_for. cbn [List.filter].
    destruct (issue_path e) as [|p ps].
    + done.
    + destruct (same_field p f).
      * cbn [List.map]. destruct (issues_get f acc) as [l|].
        -- by rewrite <- app_assoc.
        -- done.
      * done.
Qed.

Lemma collect_all_get (f : LoginField) (errors : list Issue) :
  issues_get f (collect_all errors)
  = match messages_for f errors with
    | [] => None
    | ms => Some ms
    end.
Proof. unfold collect_all. rewrite collect_fold. by destruct f. Qed.

End LoginFacts.

Section LoginGuarantees.
Context {number : Type} `{JsNumber number}.
Local Abbreviation Json := (Json number).

Lemma final_options_default (dev : bool) :
  finalOptions dev None = DEFAULT_COOKIE_OPTIONS dev.
Proof. reflexivity. Qed.

(** The three cookie writes of a login, or the throw of one of them. *)
Lemma store_session_run (dev : bool) (jar : Cookies number) (token user : Json) :
  match store_session dev jar token user with
  | (Settled _, fx) =>
      fx = [FxSetCookie "fs_at" (Some token) (DEFAULT_COOKIE_OPTIONS dev);
            FxSetCookie "fs_current_udata" (Some (JStr (Json.stringify user)))
              (DEFAULT_COOKIE_OPTIONS dev);
            FxSetCookie "fs_user_role" (Json.get "role" user)
              (DEFAULT_COOKIE_OPTIONS dev)]
  | (Rejected t, fx) =>
      List.filter is_api_call fx = []
      /\ exists name value options, cookies_set jar name value options = Some t
  end.
Proof.
  unfold store_session, setCookieServer. rewrite final_options_default.
  destruct (cookies_set jar "fs_at" _ _) as [t|] eqn:H1.
  { split; [done|]. by eexists _, _, _. }
  destruct (cookies_set jar "fs_current_udata" _ _) as [t|] eqn:H2.
  { split; [done|]. by eexists _, _, _. }
  destruct (cookies_set jar "fs_user_role" _ _) as [t|] eqn:H3.
  { split; [done|]. by eexists _, _, _. }
  done.
Qed.

(** [loginAction] once the form is read and the schema has accepted it. *)
Lemma loginAction_validated (API_URL : string) (dev : bool)
  (safeParse : RawData -> SafeParse) (net : FormNet number) (event : RequestEvent number)
  (formData : FormData) (username password : string) :
  ev_formData event = Settled formData ->
  safeParse (raw_data formData) = ParseSuccess username password ->
  loginAction API_URL dev safeParse net event
  = let body := [("username", username); ("password", password)] in
    let call := FxFetch (API_URL ^^ "/auth/login") POST
                  {[ "Content-Type" := "application/x-www-form-urlencoded" ]}
                  (USP.toString body) in
    let res := fst (apiFormPost API_URL net "/auth/login" body) in
    if negb (c_success res) then
      (Settled (unauthorized (or_else (c_message res) (JStr "Login failed"))), [call])
    else
      match match c_data res with Some d => Json.get_opt "access_token" d | None => None end,
            match c_data res with Some d => Json.get_opt "user" d | None => None end with
      | Some token, Some user =>
          if Json.truthy token && Json.truthy user then
            match store_session dev (ev_cookies event) token user with
            | (Rejected t, fx') => (Rejected t, call :: fx')
            | (Settled _, fx') => (Settled (Plain (mkState true None None None)), call :: fx')
            end
          else (Settled (unauthorized (JStr "Invalid response from server")), [call])
      | _, _ => (Settled (unauthorized (JStr "Invalid response from server")), [call])
      end.
Proof.
  intros Hform Hparse. unfold loginAction. rewrite Hform, Hparse.
  pose proof (apiFormPost_effects API_URL net "/auth/login"
                [("username", username); ("password", password)]) as Hfx.
  destruct (apiFormPost _ _ _ _) as [res fx]. simpl in Hfx. subst fx. done.
Qed.

(** X10. [apiFormPost] makes exactly one request, whatever comes back: a
    POST to the API URL followed by the endpoint, with the form content
    type, whose body read back as a form gives the fields and values it
    was given, in their order. *)
Theorem form_post_sends_the_fields (API_URL : string) (net : FormNet number)
  (endpoint : string) (body : list (string * string)) :
  exists text,
    snd (apiFormPost API_URL net endpoint body)
    = [FxFetch (API_URL ^^ endpoint) POST
         {[ "Content-Type" := "application/x-www-form-urlencoded" ]} text]
    /\ USP.parse text = body.
Proof.
  exists (USP.toString body). split.
  - apply apiFormPost_effects.
  - apply parse_toString.
Qed.

(** X11. [apiFormPost] never rejects. Its answer is a success exactly when
    the request settled with an ok response whose body was read as JSON;
    a success carries that body as data and no message, a failure a
    message and no data. *)
Theorem form_post_envelope (API_URL : string) (net : FormNet number)
  (endpoint : string) (body : list (string * string)) :
  (c_success (fst (apiFormPost API_URL net endpoint body)) = true
   <-> exists response data,
         net_fetch net (API_URL ^^ endpoint) POST
           {[ "Content-Type" := "application/x-www-form-urlencoded" ]}
           (USP.toString body) = Settled response
         /\ fr_ok response = true
         /\ fr_json response = Settled data
         /\ fst (apiFormPost API_URL net endpoint body)
            = mkClientResponse true None (Some data))
  /\ (c_success (fst (apiFormPost API_URL net endpoint body)) = false
      <-> exists m,
            fst (apiFormPost API_URL net endpoint body)
            = mkClientResponse false (Some m) None).
Proof.
  rewrite apiFormPost_result.
  destruct (net_fetch net _ _ _ _) as [response|t] eqn:Hfetch.
  - destruct (fr_json response) as [data|t] eqn:Hjson.
    + destruct (fr_ok response) eqn:Hok.
      * split; split.
        -- intros _. by exists response, data.
        -- done.
        -- done.
        -- by intros (m & Hm).
      * split; split.
        -- by destruct data.
        -- intros (r & d & [= <-] & Hr & _). by rewrite Hok in Hr.
        -- intros _. destruct data; by eexists.
        -- by destruct data.
    + split; split; try done.
      * intros (r & d & [= <-] & _ & Hd & _). by rewrite Hjson in Hd.
      * intros _. by eexists.
  - split; split; try done.
    + by intros (r & d & Hr & _).
    + intros _. by eexists.
Qed.

(** X12. The message of an HTTP failure. When the response is not ok and
    its body is read as JSON, the answer is a failure whose message is the
    body's [message] field when that field is truthy (whatever its type),
    and ["HTTP error! status: "] followed by the status otherwise; when
    the body is [null], reading [message] throws and the message is the
    text of that [TypeError]. *)
Theorem form_post_http_error (API_URL : string) (net : FormNet number)
  (endpoint : string) (body : list (string * string))
  (response : FormResponse number) (data : Json) :
  net_fetch net (API_URL ^^ endpoint) POST
    {[ "Content-Type" := "application/x-www-form-urlencoded" ]}
    (USP.toString body) = Settled response ->
  fr_ok response = false ->
  fr_json response = Settled data ->
  fst (apiFormPost API_URL net endpoint body)
  = mkClientResponse false
      (Some (match data with
             | JNull => JStr (net_null_read net)
             | _ =>
                 match field "message" data with
                 | Some m =>
                     if Json.truthy m then m
                     else JStr ("HTTP error! status: " ^^ Str.of_Z (fr_status response))
                 | None => JStr ("HTTP error! status: " ^^ Str.of_Z (fr_status response))
                 end
             end))
      None.
Proof.
  intros Hfetch Hok Hjson. rewrite apiFormPost_result, Hfetch, Hjson, Hok.
  by destruct data.
Qed.

(** X13. A login whose response body cannot be read as JSON is refused,
    also when the response is ok: the action answers [fail(401)] with the
    message of the thrown error (["Login failed"] when that message is
    empty), after its one request, and sets no cookie. *)
Theorem unreadable_login_response (API_URL : string) (dev : bool)
  (safeParse : RawData -> SafeParse) (net : FormNet number) (event : RequestEvent number)
  (formData : FormData) (username password : string)
  (response : FormResponse number) (t : Thrown) :
  ev_formData event = Settled formData ->
  safeParse (raw_data formData) = ParseSuccess username password ->
  net_fetch net (API_URL ^^ "/auth/login") POST
    {[ "Content-Type" := "application/x-www-form-urlencoded" ]}
    (USP.toString [("username", username); ("password", password)]) = Settled response ->
  fr_json response = Rejected t ->
  loginAction API_URL dev safeParse net event
  = (Settled
       (Failure 401
          (mkState false
             (Some (JStr (match t with
                          | ThrownError e =>
                              if Str.truthy (err_message e) then err_message e
                              else "Login failed"
                          | ThrownOther => "An unknown error occurred"
                          end)))
             None None)),
     [FxFetch (API_URL ^^ "/auth/login") POST
        {[ "Content-Type" := "application/x-www-form-urlencoded" ]}
        (USP.toString [("username", username); ("password", password)])]).
Proof.
  intros Hform Hparse Hfetch Hjson.
  rewrite (loginAction_validated _ _ _ _ _ _ _ _ Hform Hparse). cbv zeta.
  rewrite apiFormPost_result, Hfetch, Hjson. unfold client_catch, unauthorized, or_else.
  cbn [c_success c_message negb]. destruct t as [e|]; [|done].
  cbn [Json.truthy]. by destruct (Str.truthy (err_message e)).
Qed.

(** X14. The issues of a refused form are the schema's issues grouped by
    field: a field holds the messages of the issues whose path starts with
    it, in the schema's order, and a field without an issue is absent, so
    no field holds an empty list. *)
Theorem issues_are_grouped (errors : list Issue) :
  for_username (collect_all errors)
  = match messages_for Username errors with
    | [] => None
    | m :: ms => Some (m :: ms)
    end
  /\ for_password (collect_all errors)
     = match messages_for Password errors with
       | [] => None
       | m :: ms => Some (m :: ms)
       end.
Proof.
  split.
  - apply (collect_all_get Username).
  - apply (collect_all_get Password).
Qed.

(** X15. The action calls the API only with credentials the schema has
    accepted. Either the form was read and accepted, and the action's one
    request is the POST to [/auth/login] whose body reads back as the
    accepted [username] and [password]; or the action has no effect at
    all: reading the form rejected and so does the action, or the schema
    refused the form and the action answers [fail(400)] with the grouped
    issues. *)
Theorem login_sends_validated_credentials (API_URL : string) (dev : bool)
  (safeParse : RawData -> SafeParse) (net : FormNet number) (event : RequestEvent number) :
  (exists formData username password text,
     ev_formData event = Settled formData
     /\ safeParse (mkRawData (form_get "email" formData) (form_get "password" formData))
        = ParseSuccess username password
     /\ List.filter is_api_call (snd (loginAction API_URL dev safeParse net event))
        = [FxFetch (API_URL ^^ "/auth/login") POST
             {[ "Content-Type" := "application/x-www-form-urlencoded" ]} text]
     /\ USP.parse text = [("username", username); ("password", password)])
  \/ (snd (loginAction API_URL dev safeParse net event) = []
      /\ ((exists t,
             ev_formData event = Rejected t
             /\ fst (loginAction API_URL dev safeParse net event) = Rejected t)
          \/ exists formData errors,
               ev_formData event = Settled formData
               /\ safeParse (mkRawData (form_get "email" formData)
                               (form_get "password" formData))
                  = ParseFailure errors
               /\ fst (loginAction API_URL dev safeParse net event)
                  = Settled (Failure 400
                               (mkState false None None (Some (collect_all errors)))))).
Proof.
  destruct (ev_formData event) as [formData|t] eqn:Hform.
  - destruct (safeParse (raw_data formData)) as [username password|errors] eqn:Hparse.
    + left. exists formData, username, password, 
        (USP.toString [("username", username); ("password", password)]).
      split; [done|]. split; [done|]. split; [|apply parse_toString].
      rewrite (loginAction_validated _ _ _ _ _ _ _ _ Hform Hparse). cbv zeta.
      destruct (negb _); [done|].
      destruct (match c_data _ with Some d => Json.get_opt "access_token" d | None => None end)
        as [token|]; [|done].
      destruct (match c_data _ with Some d => Json.get_opt "user" d | None => None end)
        as [user|]; [|done].
      destruct (Json.truthy token && Json.truthy user); [|done].
      pose proof (store_session_run dev (ev_cookies event) token user) as Hrun.
      destruct (store_session _ _ _ _) as [[[]|t] fx'].
      * by subst fx'.
      * destruct Hrun as [Hfx _]. cbn [snd List.filter is_api_call]. by rewrite Hfx.
    + right. unfold loginAction. rewrite Hform, Hparse. split; [done|].
      right. by exists formData, errors.
  - right. unfold loginAction. rewrite Hform. split; [done|]. left. by exists t.
Qed.

(** X16. The session cookies go with the success. When the action answers
    [{ success: true }], the API answered ok with a body whose
    [access_token] and [user] are truthy, and after the request the action
    has set exactly three cookies with the default options: [fs_at] to the
    token, [fs_current_udata] to the JSON text of the user and
    [fs_user_role] to the user's [role]. When it answers with a failure,
    the status is 400 or 401 and no cookie is written. It rejects only
    when reading the form rejects or the cookie jar throws. *)
Theorem session_cookies_go_with_success (API_URL : string) (dev : bool)
  (safeParse : RawData -> SafeParse) (net : FormNet number) (event : RequestEvent number) :
  match loginAction API_URL dev safeParse net event with
  | (Settled (Plain state), fx) =>
      state = mkState true None None None
      /\ exists response data token user text,
           net_fetch net (API_URL ^^ "/auth/login") POST
             {[ "Content-Type" := "application/x-www-form-urlencoded" ]} text
           = Settled response
           /\ fr_ok response = true
           /\ fr_json response = Settled data
           /\ Json.get_opt "access_token" data = Some token
           /\ Json.truthy token = true
           /\ Json.get_opt "user" data = Some user
           /\ Json.truthy user = true
           /\ fx = [FxFetch (API_URL ^^ "/auth/login") POST
                      {[ "Content-Type" := "application/x-www-form-urlencoded" ]} text;
                    FxSetCookie "fs_at" (Some token) (DEFAULT_COOKIE_OPTIONS dev);
                    FxSetCookie "fs_current_udata" (Some (JStr (Json.stringify user)))
                      (DEFAULT_COOKIE_OPTIONS dev);
                    FxSetCookie "fs_user_role" (Json.get "role" user)
                      (DEFAULT_COOKIE_OPTIONS dev)]
  | (Settled (Failure status state), fx) =>
      st_success state = false
      /\ (status = 400 \/ status = 401)
      /\ List.filter is_cookie_write fx = []
  | (Rejected t, fx) =>
      ev_formData event = Rejected t
      \/ exists name value options,
           cookies_set (ev_cookies event) name value options = Some t
  end.
Proof.
  destruct (ev_formData event) as [formData|t] eqn:Hform.
  2: { unfold loginAction. rewrite Hform. by left. }
  destruct (safeParse (raw_data formData)) as [username password|errors] eqn:Hparse.
  2: { unfold loginAction. rewrite Hform, Hparse. cbn. split; [done|]. split; [by left|done]. }
  rewrite (loginAction_validated _ _ _ _ _ _ _ _ Hform Hparse). cbv zeta.
  rewrite apiFormPost_result.
  destruct (net_fetch net _ _ _ _) as [response|t] eqn:Hfetch.
  2: { cbn. split; [done|]. split; [by right|done]. }
  destruct (fr_json response) as [data|t] eqn:Hjson.
  2: { cbn. split; [done|]. split; [by right|done]. }
  destruct (fr_ok response) eqn:Hok.
  2: { destruct data; cbn; (split; [done|]); (split; [by right|done]). }
  cbn [c_success c_data negb].
  destruct (Json.get_opt "access_token" data) as [token|] eqn:Htoken.
  2: { cbn. split; [done|]. split; [by right|done]. }
  destruct (Json.get_opt "user" data) as [user|] eqn:Huser.
  2: { cbn. split; [done|]. split; [by right|done]. }
  destruct (Json.truthy token) eqn:Ht; cbn [andb].
  2: { cbn. split; [done|]. split; [by right|done]. }
  destruct (Json.truthy user) eqn:Hu.
  2: { cbn. split; [done|]. split; [by right|done]. }
  pose proof (store_session_run dev (ev_cookies event) token user) as Hrun.
  destruct (store_session _ _ _ _) as [[[]|t] fx'].
  - subst fx'. split; [done|]. by eexists response, data, token, user, _.
  - right. by destruct Hrun as [_ Hjar].
Qed.

End LoginGuarantees.

Section LoginFormGuarantees.
Context {number : Type} `{JsNumber number}.
Local Abbreviation Json := (Json number).

(** What [errors] holds under the names the form could read. *)
Lemma field_errors_lookup (i : Issues) :
  field_errors i !! "email" = None
  /\ field_errors i !! "username"
     = match for_username i with
       | Some (m :: _) => Some m
       | _ => None
       end
  /\ field_errors i !! "password"
     = match for_password i with
       | Some (m :: _) => Some m
       | _ => None
       end.
Proof.
  destruct i as [[[|m l]|] [[|m' l']|]]; unfold field_errors, issue_entries;
    cbn [for_username for_password field_name app fold_left first_error fst snd];
    repeat split;
    repeat first [ rewrite lookup_insert_eq | rewrite lookup_insert_ne by done
                 | rewrite lookup_empty ];
    done.
Qed.

(** X17. The form never marks the email input. Whatever state the action
    returned, [errors.email] stays unset: the action files the issues of
    the email under [username], the name of the schema's field, and the
    form keeps them under that name, which no input reads. For a refused
    form the first message of the email's issues sits under [username],
    the first message of the password's issues is the one shown at the
    password input, and the toast says ["Failed to login"]. *)
Theorem email_errors_are_not_shown (state : LoginActionState number)
  (errors : list Issue) :
  flagged "email" (errors_after state) = false
  /\ errors_after (mkState false (@None Json) None (Some (collect_all errors))) !! "username"
     = head (messages_for Username errors)
  /\ errors_after (mkState false (@None Json) None (Some (collect_all errors))) !! "password"
     = head (messages_for Password errors)
  /\ flagged "password"
       (errors_after (mkState false (@None Json) None (Some (collect_all errors))))
     = match messages_for Password errors with
       | [] => false
       | _ :: _ => true
       end
  /\ toast_text (mkState false (@None Json) None (Some (collect_all errors)))
     = JStr "Failed to login".
Proof.
  split.
  - unfold flagged, errors_after. destruct (st_issues state) as [i|].
    + by rewrite (proj1 (field_errors_lookup i)).
    + by rewrite lookup_empty.
  - unfold flagged, errors_after. cbn [st_issues].
    destruct (field_errors_lookup (collect_all errors)) as (_ & -> & ->).
    pose proof (collect_all_get Username errors) as Hu.
    pose proof (collect_all_get Password errors) as Hp.
    cbn [issues_get] in Hu, Hp. rewrite Hu, Hp.
    destruct (messages_for Username errors), (messages_for Password errors); done.
Qed.

End LoginFormGuarantees.

Section CookieGuarantees.
Context {number : Type} `{JsNumber number}.

(** X18. The options a cookie is set with. The path is always a string:
    the caller's when the caller gives one, ["/"] otherwise, also when the
    caller passes [path: undefined]. With no options the defaults apply
    unchanged. Every other default holds exactly as long as the caller's
    object has no such property: a property passed as [undefined] erases
    the default, so [{ secure: undefined }] sets a cookie with no [secure]
    and [{ httpOnly: undefined }] one with no [httpOnly]. *)
Theorem cookie_options_defaults (dev : bool) (jar : Cookies number) (name : string)
  (value : CookieValue) (o : CookieSetOptions) :
  path (finalOptions dev (Some o))
  = Given (match path o with Given p => p | _ => "/" end)
  /\ snd (setCookieServer dev jar name value None)
     = match cookies_set jar name value (DEFAULT_COOKIE_OPTIONS dev) with
       | Some _ => []
       | None => [FxSetCookie name value (DEFAULT_COOKIE_OPTIONS dev)]
       end
  /\ secure (finalOptions dev (Some o))
     = match secure o with
       | Absent => Given (negb dev)
       | own => own
       end
  /\ httpOnly (finalOptions dev (Some o))
     = match httpOnly o with
       | Absent => Given true
       | own => own
       end
  /\ sameSite (finalOptions dev (Some o))
     = match sameSite o with
       | Absent => Given Lax
       | own => own
       end
  /\ maxAge (finalOptions dev (Some o))
     = match maxAge o with
       | Absent => Given 86400
       | own => own
       end
  /\ expires (finalOptions dev (Some o)) = expires o
  /\ domain (finalOptions dev (Some o)) = domain o.
Proof.
  split; [unfold finalOptions, with_path; simpl; by destruct (path o)|]. split.
  { unfold setCookieServer. rewrite final_options_default.
    by destruct (cookies_set jar name value _). }
  unfold finalOptions, with_path, spread_options, spread_field. simpl.
  repeat split.
  - by destruct (secure o).
  - by destruct (httpOnly o).
  - by destruct (sameSite o).
  - by destruct (maxAge o).
  - by destruct (expires o).
  - by destruct (domain o).
Qed.

(** X19. The token [getAuthServer] answers is truthy exactly when the
    [fs_at] cookie or the [st_manager_at] cookie is: a truthy [fs_at] is the
    answer; an [fs_at] that is missing or empty gives way to
    [st_manager_at], whatever that one holds. *)
Theorem auth_token_fallback (jar : Cookies number) :
  token_truthy (getAuthServer jar)
  = token_truthy (getCookieServer jar "fs_at")
    || token_truthy (getStoreManagerAuthServer jar)
  /\ getAuthServer jar
     = if token_truthy (getCookieServer jar "fs_at") then getCookieServer jar "fs_at"
       else getStoreManagerAuthServer jar.
Proof.
  unfold getAuthServer, getStoreManagerAuthServer, getCookieServer, token_truthy.
  destruct (cookies_get jar "fs_at") as [fs|]; [|done].
  destruct (Str.truthy fs) eqn:Hfs; [|done].
  by rewrite Hfs.
Qed.

End CookieGuarantees.

Section UnwiredGuarantees.
Context {number : Type} `{JsNumber number}.

(** X20. The placeholder login action never logs anyone in: it refuses a
    form the schema accepts with [fail(401)] and the message ["Invalid
    email or password"], and a form the schema refuses exactly as the
    action that calls the API does, with [fail(400)] and the grouped
    issues. *)
Theorem unwired_login_never_succeeds (API_URL : string) (dev : bool)
  (safeParse : RawData -> SafeParse) (net : FormNet number) (jar : Cookies number)
  (formData : FormData) :
  match safeParse (raw_data formData) with
  | ParseSuccess _ _ =>
      Unwired.loginAction (number := number) safeParse (Settled formData)
      = Settled (Failure 401
                   (mkState false (Some (JStr "Invalid email or password")) None None))
  | ParseFailure errors =>
      Unwired.loginAction safeParse (Settled formData)
      = fst (loginAction API_URL dev safeParse net (mkEvent (Settled formData) jar))
      /\ Unwired.loginAction (number := number) safeParse (Settled formData)
         = Settled (Failure 400 (mkState false None None (Some (collect_all errors))))
  end.
Proof.
  unfold Unwired.loginAction, loginAction. cbn [ev_formData].
  by destruct (safeParse (raw_data formData)).
Qed.

End UnwiredGuarantees.

(** ** The login feature on concrete calls *)

Section LoginExamples.
Import Scenario.

(** A login the API accepts: one request, then the three cookies. *)
Example login_accepted :
  loginAction origin false schema
    (answers (Settled (mkFormResponse true 200
                         (Settled (JObj [("access_token", JStr "abc");
                                         ("user", JObj [("role", JStr "support")])])))))
    login_event
  = (Settled (Plain (mkState true None None None)),
     [FxFetch "https://api.example.test/auth/login" POST
        {[ "Content-Type" := "application/x-www-form-urlencoded" ]}
        "username=ada%40example.test&password=s3cret";
      FxSetCookie "fs_at" (Some (JStr "abc")) (DEFAULT_COOKIE_OPTIONS false);
      FxSetCookie "fs_current_udata"
        (Some (JStr ("{" ^^ Json.dquote ^^ "role" ^^ Json.dquote ^^ ":"
                     ^^ Json.dquote ^^ "support" ^^ Json.dquote ^^ "}")))
        (DEFAULT_COOKIE_OPTIONS false);
      FxSetCookie "fs_user_role" (Some (JStr "support")) (DEFAULT_COOKIE_OPTIONS false)]).
Proof. reflexivity. Qed.

(** A form without an at sign in the email and without a password. *)
Example login_refused_by_schema :
  loginAction origin false schema (answers (Rejected ThrownOther))
    (mkEvent (Settled [FormField "email" "ada"; FormField "password" ""]) open_jar)
  = (Settled (Failure 400
                (mkState false None None
                   (Some (mkIssues (Some ["Invalid email address"])
                            (Some ["Password is required"]))))),
     []).
Proof. reflexivity. Qed.

(** Wrong credentials, answered with 401 and a body without [message]. *)
Lemma form_post_http_error_unauthorized :
  fst (apiFormPost origin
         (answers (Settled (mkFormResponse false 401
                              (Settled (JObj [("detail", JStr "Incorrect password")])))))
         "/auth/login" [("username", "ada@example.test"); ("password", "wrong")])
  = mkClientResponse false (Some (JStr "HTTP error! status: 401")) None.
Proof.
  refine (form_post_http_error origin
            (answers (Settled (mkFormResponse false 401
                                 (Settled (JObj [("detail", JStr "Incorrect password")])))))
            "/auth/login" [("username", "ada@example.test"); ("password", "wrong")]
            (mkFormResponse false 401
               (Settled (JObj [("detail", JStr "Incorrect password")])))
            (JObj [("detail", JStr "Incorrect password")]) _ _ _); reflexivity.
Defined.

(** A login answered with 204 and no body. *)
Lemma unreadable_login_response_no_content :
  loginAction origin false schema
    (answers (Settled (mkFormResponse true 204
                         (Rejected (ThrownError
                                      (mkError "SyntaxError"
                                         "Unexpected end of JSON input"))))))
    login_event
  = (Settled (Failure 401
                (mkState false (Some (JStr "Unexpected end of JSON input")) None None)),
     [FxFetch "https://api.example.test/auth/login" POST
        {[ "Content-Type" := "application/x-www-form-urlencoded" ]}
        "username=ada%40example.test&password=s3cret"]).
Proof.
  refine (unreadable_login_response origin false schema
            (answers (Settled (mkFormResponse true 204
                                 (Rejected (ThrownError
                                              (mkError "SyntaxError"
                                                 "Unexpected end of JSON input"))))))
            login_event login_form "ada@example.test" "s3cret"
            (mkFormResponse true 204
               (Rejected (ThrownError (mkError "SyntaxError"
                                         "Unexpected end of JSON input"))))
            (ThrownError (mkError "SyntaxError" "Unexpected end of JSON input"))
            _ _ _ _); reflexivity.
Defined.

End LoginExamples.
